(** * A shallow embedding of [shell.c]

    The shell keeps one global [process] record, reads a line, cuts it
    into tokens with [strtok], assembles command strings, and dispatches
    each of them to a built-in or to a forked child.  The development
    follows the file: the C library helpers the shell relies on, the
    shell state and the operating system around it, the job table and
    [ps], the external executor, the built-ins, and the assembler loop
    of [execute_command]; the properties come last.

    Strings are Rocq strings, a pointer that may be [NULL] is an
    option, [int] and [long] are integers with their conversions
    written out, a vector is a list.  State is passed explicitly
    through a small monad whose outcomes tell a return from [exit] and
    from a read through a null pointer.  What the operating system
    decides (the result of [fork], what an executed program writes and
    how it ends, which paths can be opened, the contents of [/proc]) is
    a record of functions, [env].  Of [shell] itself the model has the
    state it sets up and the loop that closes each turn; the parsing of
    the options, the script loop and the prompt are left out. *)

From Stdlib Require Import ZArith List String Ascii Bool Arith Lia.
Import ListNotations.

Local Open Scope string_scope.
Local Open Scope Z_scope.

(** ** C strings

    A [char *] that is not [NULL] is a [string]; a pointer that may be
    [NULL] is an [option string].  Buffers are not sized: a [strcat]
    that fits is the concatenation. *)

Module CString.

Definition SP : ascii := " "%char.
Definition LF : ascii := "010"%char.
Definition CR : ascii := "013"%char.
Definition TAB : ascii := "009"%char.
Definition VT : ascii := "011"%char.
Definition FF : ascii := "012"%char.

(** [str[0]], when the string is not empty. *)
Definition first_char (s : string) : option ascii :=
  match s with
  | EmptyString => None
  | String c _ => Some c
  end.

(** [str[strlen(str) - 1]], when the string is not empty. *)
Fixpoint last_char (s : string) : option ascii :=
  match s with
  | EmptyString => None
  | String c EmptyString => Some c
  | String _ r => last_char r
  end.

(** [str[strlen(str) - 1] = '\0'] on a non-empty string. *)
Fixpoint drop_last (s : string) : string :=
  match s with
  | EmptyString => EmptyString
  | String _ EmptyString => EmptyString
  | String c r => String c (drop_last r)
  end.

Definition last_is (c : ascii) (s : string) : bool :=
  match last_char s with
  | Some d => Ascii.eqb d c
  | None => false
  end.

Definition first_is (c : ascii) (s : string) : bool :=
  match first_char s with
  | Some d => Ascii.eqb d c
  | None => false
  end.

(** [trim_space]: removes ONE trailing blank, newline or carriage
    return, if there is one. *)
Definition trim_space (str : string) : string :=
  if last_is SP str || last_is LF str || last_is CR str
  then drop_last str
  else str.

(** The tokens that [strtok(s, " ")] followed by [strtok(NULL, " ")]
    hands out until it returns [NULL]: the maximal runs of characters
    other than the blank. *)
Fixpoint strtok (s : string) : list string :=
  match s with
  | EmptyString => []
  | String c r =>
      if Ascii.eqb c SP then strtok r
      else
        match r with
        | EmptyString => [String c EmptyString]
        | String d _ =>
            if Ascii.eqb d SP then String c EmptyString :: strtok r
            else
              match strtok r with
              | t :: ts => String c t :: ts
              | [] => [String c EmptyString]
              end
        end
  end.

(** What the buffer reads as after the first [strtok] call wrote its
    terminator: the leading blanks and the first token. *)
Fixpoint after_first_strtok (s : string) : string :=
  match s with
  | EmptyString => EmptyString
  | String c r =>
      if Ascii.eqb c SP then String c (after_first_strtok r)
      else
        (fix word (t : string) : string :=
           match t with
           | EmptyString => EmptyString
           | String d u => if Ascii.eqb d SP then EmptyString else String d (word u)
           end) s
  end.

(** [strncmp(p, s, strlen(p)) == 0]. *)
Definition strncmp_prefix (p s : string) : bool := String.prefix p s.

(** *** [atoi] and [atol]

    As glibc has them: [strtol] in base 10 (blanks skipped, an
    optional sign, the longest run of digits, saturating at the ends
    of [long]), and for [atoi] the conversion of that [long] to
    [int], which keeps the low 32 bits. *)

Definition isspace (c : ascii) : bool :=
  Ascii.eqb c SP || Ascii.eqb c TAB || Ascii.eqb c LF
  || Ascii.eqb c VT || Ascii.eqb c FF || Ascii.eqb c CR.

Definition isdigit (c : ascii) : bool :=
  let n := nat_of_ascii c in (48 <=? n)%nat && (n <=? 57)%nat.

Definition digit_value (c : ascii) : Z := Z.of_nat (nat_of_ascii c) - 48.

Fixpoint skip_spaces (s : string) : string :=
  match s with
  | String c r => if isspace c then skip_spaces r else s
  | EmptyString => EmptyString
  end.

Fixpoint digits (acc : Z) (s : string) : Z :=
  match s with
  | String c r => if isdigit c then digits (10 * acc + digit_value c) r else acc
  | EmptyString => acc
  end.

Definition LONG_MAX : Z := 2 ^ 63 - 1.
Definition LONG_MIN : Z := - 2 ^ 63.
Definition INT_MAX : Z := 2 ^ 31 - 1.
Definition INT_MIN : Z := - 2 ^ 31.

Definition saturate (z : Z) : Z := Z.max LONG_MIN (Z.min LONG_MAX z).

Definition strtol (s : string) : Z :=
  match skip_spaces s with
  | EmptyString => 0
  | String c r =>
      if Ascii.eqb c "-"%char then saturate (- digits 0 r)
      else if Ascii.eqb c "+"%char then saturate (digits 0 r)
      else saturate (digits 0 (String c r))
  end.

(** The value of a [long] converted to [int]. *)
Definition to_int (z : Z) : Z := (z + 2 ^ 31) mod 2 ^ 32 - 2 ^ 31.

Definition atol (s : string) : Z := strtol s.
Definition atoi (s : string) : Z := to_int (strtol s).

(** Blank-separated concatenation, the way the assembler builds a
    command out of tokens with [strcat]. *)
Fixpoint join (ws : list string) : string :=
  match ws with
  | [] => EmptyString
  | [w] => w
  | w :: r => w ++ String SP (join r)
  end.

End CString.
Import CString.


(** ** The shell state

    [vector.h] is not part of the source at hand: a vector is a list,
    [vector_push_back] appends, [vector_get] and [vector_erase] are
    defined inside the bounds only, and a string vector stores a copy of
    what is pushed, which needs a non-null string. *)

(** The global [process] record, without the line buffer and the
    script [FILE *], which nothing below reads. *)
Record process : Type := mk_process {
  pid : Z;
  previous_commands : list string;
  history_file : option string;
  background_jobs : list Z;
  background_jobs_commands : list string;
  output_file : option string;
  input_file : option string;
  append_file : option string
}.

(** [process_info] of [format.h].  [get_process_info] fills a fresh
    [malloc] block, so a field it did not write has no known value. *)
Record process_info : Type := mk_process_info {
  info_pid : Z;
  info_nthreads : option Z;
  info_vsize : option Z;
  info_state : option ascii;
  info_start_str : option string;
  info_time_str : option string;
  info_command : option string
}.

(** The calls to the formatting collaborator ([format.h]), each one an
    event; [program_output] is what an exec'd program wrote to the
    terminal. *)
Inductive msg : Type :=
| print_invalid_command (command : string)
| print_no_directory (path : string)
| print_history_line (index : nat) (command : string)
| print_invalid_index
| print_command (command : string)
| print_no_history_match
| print_fork_failed
| print_wait_failed
| print_command_executed (child : Z)
| print_redirection_file_error
| print_exec_failed (command : string)
| print_process_info_header
| print_process_info (info : process_info)
| print_no_process_found (target : Z)
| print_killed_process (target : Z) (name : string)
| print_stopped_process (target : Z) (name : string)
| print_continued_process (target : Z) (name : string)
| program_output (bytes : string).

Inductive signal : Type := SIGKILL | SIGSTOP | SIGCONT.

Inductive run_state : Type := Running | Stopped | Zombie.

(** What [waitpid] stores in [status]. *)
Inductive wait_status : Type :=
| WExited (code : Z)
| WSignaled.

(** What the shell can observe and change outside its own memory. *)
Record world : Type := mk_world {
  log : list msg;                      (* events, oldest first *)
  files : list (string * string);      (* regular files: path and contents *)
  cwd : string;
  procs : list (Z * run_state);        (* the other processes that exist, zombies included *)
  forks : nat                          (* calls to fork() so far *)
}.

Record state : Type := mk_state {
  current_process : process;
  os : world
}.

(** What the operating system decides.  A foreground child is taken to
    terminate; of a background child the model follows its first act,
    the report of its own pid, and not what it does after that. *)
Record env : Type := mk_env {
  (* the n-th fork(), seen from the parent: the child's pid, or failure *)
  fork_result : nat -> option Z;
  (* execvp of an argument vector with the given standard input (None:
     the terminal): failure, or the bytes written to standard output
     and how the program ended *)
  image : list string -> option string -> option (string * wait_status);
  (* chdir to an absolute path: the new working directory, or failure *)
  chdir_to : string -> option string;
  (* open() of a path for writing, creating it when missing *)
  can_open : string -> bool;
  (* kill() with a negative pid, a process group or everything *)
  kill_group : Z -> signal -> bool;
  (* /proc/<pid>/status by lines and the line of /proc/<pid>/stat *)
  proc_status : Z -> option (list string);
  proc_stat : Z -> option string;
  clk_tck : Z;
  boot_time : Z;
  gmtime_string : Z -> string;
  localtime_string : Z -> string;
  (* what a fresh malloc block reads as, up to its first NUL *)
  malloc_block : string
}.

(** ** Outcomes

    A call returns, or the process ends in [exit], or it is ended by a
    [SIGKILL] it sent to itself, or the code reads through a null
    pointer or past a vector ([Fault]: the C program has no defined
    behaviour from there on), or the model ran out of the fuel that
    bounds the re-entry of [execute_command] from [#<n>] and
    [!<prefix>]. *)
Inductive outcome (A : Type) : Type :=
| Ret (a : A) (s : state)
| Exited (code : Z) (s : state)
| Killed (s : state)
| Fault (s : state)
| OutOfFuel.

Arguments Ret {A} a s.
Arguments Exited {A} code s.
Arguments Killed {A} s.
Arguments Fault {A} s.
Arguments OutOfFuel {A}.

Definition M (A : Type) : Type := state -> outcome A.

Definition ret {A : Type} (a : A) : M A := fun s => Ret a s.

Definition bind {A B : Type} (m : M A) (k : A -> M B) : M B :=
  fun s =>
    match m s with
    | Ret a s' => k a s'
    | Exited c s' => Exited c s'
    | Killed s' => Killed s'
    | Fault s' => Fault s'
    | OutOfFuel => OutOfFuel
    end.

Definition fault {A : Type} : M A := fun s => Fault s.
Definition exit {A : Type} (code : Z) : M A := fun s => Exited code s.
Definition get : M state := fun s => Ret s s.
Definition modify (f : state -> state) : M unit := fun s => Ret tt (f s).

Declare Scope shell_scope.
Delimit Scope shell_scope with shell.
Notation "x <- m ;; k" := (bind m (fun x => k))
  (at level 61, m at next level, right associativity) : shell_scope.
Notation "m ;; k" := (bind m (fun _ => k))
  (at level 61, right associativity) : shell_scope.
Local Open Scope shell_scope.

(** Field updates. *)
Definition set_world (f : world -> world) (s : state) : state :=
  mk_state (current_process s) (f (os s)).

Definition set_process (f : process -> process) (s : state) : state :=
  mk_state (f (current_process s)) (os s).

Definition add_log (m : msg) (w : world) : world :=
  mk_world (log w ++ [m]) (files w) (cwd w) (procs w) (forks w).

Definition set_files (fs : list (string * string)) (w : world) : world :=
  mk_world (log w) fs (cwd w) (procs w) (forks w).

Definition set_cwd (d : string) (w : world) : world :=
  mk_world (log w) (files w) d (procs w) (forks w).

Definition set_procs (ps : list (Z * run_state)) (w : world) : world :=
  mk_world (log w) (files w) (cwd w) ps (forks w).

Definition count_fork (w : world) : world :=
  mk_world (log w) (files w) (cwd w) (procs w) (S (forks w)).

Definition set_previous_commands (h : list string) (p : process) : process :=
  mk_process (pid p) h (history_file p) (background_jobs p)
    (background_jobs_commands p) (output_file p) (input_file p) (append_file p).

Definition set_background_jobs (j : list Z) (p : process) : process :=
  mk_process (pid p) (previous_commands p) (history_file p) j
    (background_jobs_commands p) (output_file p) (input_file p) (append_file p).

Definition set_background_jobs_commands (c : list string) (p : process) : process :=
  mk_process (pid p) (previous_commands p) (history_file p) (background_jobs p)
    c (output_file p) (input_file p) (append_file p).

Definition set_output_file (f : option string) (p : process) : process :=
  mk_process (pid p) (previous_commands p) (history_file p) (background_jobs p)
    (background_jobs_commands p) f (input_file p) (append_file p).

Definition set_input_file (f : option string) (p : process) : process :=
  mk_process (pid p) (previous_commands p) (history_file p) (background_jobs p)
    (background_jobs_commands p) (output_file p) f (append_file p).

Definition set_append_file (f : option string) (p : process) : process :=
  mk_process (pid p) (previous_commands p) (history_file p) (background_jobs p)
    (background_jobs_commands p) (output_file p) (input_file p) f.

(** A call to the formatting collaborator. *)
Definition say (m : msg) : M unit := modify (set_world (add_log m)).

(** [vector_get]: inside the bounds, or the library's assertion fails. *)
Definition vector_get {A : Type} (v : list A) (i : nat) : M A :=
  match nth_error v i with
  | Some a => ret a
  | None => fault
  end.

(** [vector_erase] at a position inside the bounds. *)
Fixpoint vector_erase {A : Type} (v : list A) (i : nat) : list A :=
  match v, i with
  | [], _ => []
  | _ :: r, O => r
  | x :: r, S j => x :: vector_erase r j
  end.

(** ** System calls *)

Section Shell.

Variable E : env.

Definition deliver (sig : signal) (r : run_state) : run_state :=
  match sig, r with
  | _, Zombie => Zombie
  | SIGKILL, _ => Zombie
  | SIGSTOP, _ => Stopped
  | SIGCONT, _ => Running
  end.

Fixpoint signal_proc (target : Z) (sig : signal) (ps : list (Z * run_state))
  : option (list (Z * run_state)) :=
  match ps with
  | [] => None
  | (p, r) :: rest =>
      if p =? target then Some ((p, deliver sig r) :: rest)
      else option_map (cons (p, r)) (signal_proc target sig rest)
  end.

(** A signal that reaches the shell itself: [SIGKILL] ends it; after
    [SIGSTOP] it goes on once it is continued. *)
Definition signal_self (sig : signal) : M bool :=
  match sig with
  | SIGKILL => fun s => Killed s
  | SIGSTOP | SIGCONT => ret true
  end.

(** [kill(target, sig) != -1].  The shell's own pid and 0, its own
    process group, reach the shell; another positive pid is looked up
    among the processes that exist; a negative one is the environment's
    to answer. *)
Definition sys_kill (target : Z) (sig : signal) : M bool :=
  s <- get;;
  if (target =? pid (current_process s)) || (target =? 0) then signal_self sig
  else if 0 <? target then
    match signal_proc target sig (procs (os s)) with
    | Some ps => modify (set_world (set_procs ps));; ret true
    | None => ret false
    end
  else ret (kill_group E target sig).

Fixpoint fs_read (fs : list (string * string)) (path : string) : option string :=
  match fs with
  | [] => None
  | (p, c) :: rest => if String.eqb p path then Some c else fs_read rest path
  end.

Fixpoint fs_write (fs : list (string * string)) (path content : string)
  : list (string * string) :=
  match fs with
  | [] => [(path, content)]
  | (p, c) :: rest =>
      if String.eqb p path then (p, content) :: rest
      else (p, c) :: fs_write rest path content
  end.

(** [open] with [O_CREAT] and without [O_TRUNC]: a missing file comes
    into being empty, an existing one keeps its contents. *)
Definition fs_create (fs : list (string * string)) (path : string)
  : list (string * string) :=
  match fs_read fs path with
  | Some _ => fs
  | None => fs_write fs path EmptyString
  end.

(** [write] of [data] at offset 0 of a file that holds [old]. *)
Definition write_over (old data : string) : string :=
  data ++ substring (String.length data) (String.length old - String.length data) old.

(** ** The job table *)

Definition kill_process (target : Z) : M unit :=
  ok <- sys_kill target SIGKILL;;
  if ok then say (print_killed_process target "command")
  else say (print_no_process_found target).

Definition stop_process (target : Z) : M unit :=
  ok <- sys_kill target SIGSTOP;;
  if ok then say (print_stopped_process target "command")
  else say (print_no_process_found target).

Definition continue_process (target : Z) : M unit :=
  ok <- sys_kill target SIGCONT;;
  if ok then say (print_continued_process target "command")
  else say (print_no_process_found target).

Definition add_background_job (child : Z) : M unit :=
  modify (set_process (fun p => set_background_jobs (background_jobs p ++ [child]) p)).

(** The scan of [remove_background_job]: [i] runs over the positions
    while [i < vector_size], and an erasure moves the next element
    under the index that is about to be incremented.  [n] bounds the
    number of iterations. *)
Fixpoint remove_scan (n i : nat) (target : Z) (jobs : list Z) : list Z :=
  match n with
  | O => jobs
  | S n' =>
      match nth_error jobs i with
      | None => jobs
      | Some j =>
          remove_scan n' (S i) target
            (if j =? target then vector_erase jobs i else jobs)
      end
  end.

Definition remove_background_job (target : Z) : M unit :=
  modify (set_process (fun p =>
    set_background_jobs
      (remove_scan (List.length (background_jobs p)) 0 target (background_jobs p)) p));;
  kill_process target.

(** ** [ps] *)

Definition drop (n : nat) (s : string) : string :=
  substring n (String.length s - n) s.

(** The loop over the lines of [/proc/<pid>/status]. *)
Fixpoint scan_status (lines : list string) (info : process_info) : process_info :=
  match lines with
  | [] => info
  | line :: rest =>
      let info1 :=
        if strncmp_prefix "VmSize:" line
        then mk_process_info (info_pid info) (info_nthreads info) (Some (atol (drop 7 line)))
               (info_state info) (info_start_str info) (info_time_str info) (info_command info)
        else info in
      let info2 :=
        if strncmp_prefix "Threads:" line
        then mk_process_info (info_pid info1) (Some (atol (drop 8 line))) (info_vsize info1)
               (info_state info1) (info_start_str info1) (info_time_str info1) (info_command info1)
        else info1 in
      scan_status rest info2
  end.

(** [get_process_info], or nothing when the function reads through a
    null pointer: [fopen] of a missing file gives [NULL], which
    [getline] dereferences; fields 3, 14 and 22 of the [stat] line are
    read through whatever [strtok] returned. *)
Definition get_process_info (target : Z) : option process_info :=
  match proc_status E target with
  | None => None
  | Some lines =>
      let info := scan_status lines (mk_process_info target None None None None None None) in
      match proc_stat E target with
      | None => None
      | Some line =>
          let tokens := strtok line in
          match nth_error tokens 2, nth_error tokens 13, nth_error tokens 21 with
          | Some token3, Some token14, Some token22 =>
              Some (mk_process_info target (info_nthreads info) (info_vsize info)
                      (first_char token3)
                      (Some (localtime_string E
                               (boot_time E + Z.quot (atol token22) (clk_tck E))))
                      (Some (gmtime_string E (Z.quot (atol token14) (clk_tck E))))
                      None)
          | _, _, _ => None
          end
      end
  end.

(** A call whose null dereference is a [Fault]. *)
Definition or_fault {A : Type} (r : option A) : M A :=
  match r with
  | Some a => ret a
  | None => fault
  end.

Definition with_command (c : string) (info : process_info) : process_info :=
  mk_process_info (info_pid info) (info_nthreads info) (info_vsize info)
    (info_state info) (info_start_str info) (info_time_str info) (Some c).

(** The loop of [execute_ps] from position [i] on, over the jobs that
    are left to visit. *)
Fixpoint ps_rows (i : nat) (jobs : list Z) : M unit :=
  match jobs with
  | [] => ret tt
  | j :: rest =>
      info <- or_fault (get_process_info j);;
      s <- get;;
      c <- vector_get (background_jobs_commands (current_process s)) i;;
      say (print_process_info (with_command c info));;
      ps_rows (S i) rest
  end.

Definition execute_ps : M Z :=
  say print_process_info_header;;
  s <- get;;
  ps_rows 0 (background_jobs (current_process s));;
  info <- or_fault (get_process_info (pid (current_process s)));;
  say (print_process_info (with_command "./shell" info));;
  ret 0.

(** ** The external executor *)

(** Where the child's standard output points. *)
Inductive stdout_target : Type :=
| Terminal
| ToFile (path : string) (append : bool).

(** What the program's output does to the world. *)
Definition emit (target : stdout_target) (bytes : string) (w : world) : world :=
  match target with
  | Terminal => add_log (program_output bytes) w
  | ToFile path append =>
      let old := match fs_read (files w) path with Some c => c | None => EmptyString end in
      set_files (fs_write (files w) path (if append then old ++ bytes else write_over old bytes)) w
  end.

(** The [pid == 0] branch, run to its end: the child reports its pid,
    applies the three redirections in the order of the source, cuts the
    command into arguments and calls [execvp].  The result is the world
    as the child leaves it and the status the parent's [waitpid] sees. *)
Definition child_process (p : process) (child : Z) (command : string) (w : world)
  : world * wait_status :=
  let w0 := add_log (print_command_executed child) w in
  let failed (w' : world) := (add_log print_redirection_file_error w', WExited 1) in
  let exec (target : stdout_target) (w' : world) :=
    let stdin_redirected :=
      match input_file p with
      | None => Some None
      | Some path => option_map Some (fs_read (files w') path)
      end in
    match stdin_redirected with
    | None => failed w'
    | Some stdin =>
        match strtok command with
        | [] => (w', WSignaled)                     (* execvp(NULL, args) *)
        | args =>
            match image E args stdin with
            | None => (add_log (print_exec_failed (after_first_strtok command)) w', WExited 1)
            | Some (bytes, status) => (emit target bytes w', status)
            end
        end
    end in
  let appending (target : stdout_target) (w' : world) :=
    match append_file p with
    | None => exec target w'
    | Some path =>
        if can_open E path
        then exec (ToFile path true) (set_files (fs_create (files w') path) w')
        else failed w'
    end in
  match output_file p with
  | None => appending Terminal w0
  | Some path =>
      if can_open E path
      then appending (ToFile path false) (set_files (fs_create (files w0) path) w0)
      else failed w0
  end.

(** The three [if (field) field = NULL;] at the end. *)
Definition clear_redirections : M unit :=
  modify (set_process (fun p =>
    set_append_file None (set_output_file None (set_input_file None p)))).

(** [execute_external_command].  The command is an element of the
    [commands] vector; the terminator written over a trailing [&] stays
    in that element, which the caller afterwards only inspects at its
    first character. *)
Definition execute_external_command (command : string) : M Z :=
  match last_char command with
  | None => fault                                   (* command[strlen(command) - 1] *)
  | Some c =>
      let background := Ascii.eqb c "&"%char in
      let command' := if background then drop_last command else command in
      s <- get;;
      modify (set_world count_fork);;
      match fork_result E (forks (os s)) with
      | None => say print_fork_failed;; ret 1
      | Some child =>
          if background then
            modify (set_world (fun w => set_procs (procs w ++ [(child, Running)]) w));;
            say (print_command_executed child);;
            add_background_job child;;
            modify (set_process (fun p =>
              set_background_jobs_commands (background_jobs_commands p ++ [command']) p));;
            clear_redirections;;
            ret 0
          else
            s1 <- get;;
            let (w, status) := child_process (current_process s1) child command' (os s1) in
            modify (set_world (fun _ => w));;
            match status with
            | WSignaled => say print_wait_failed;; ret 1
            | WExited code =>
                if code =? 0 then clear_redirections;; ret 0 else ret 1
            end
      end
  end.

(** ** The built-ins *)

(** The buffer a command is read from: a line of its own, or the
    history entry at a position, which [#<n>] and [!<prefix>] pass by
    pointer and [execute_command] trims in place. *)
Inductive cmdref : Type :=
| Line (text : string)
| Hist (index : nat).

Definition deref (command : cmdref) : M string :=
  match command with
  | Line text => ret text
  | Hist n => s <- get;; vector_get (previous_commands (current_process s)) n
  end.

Definition is_builtin_command (command : string) : M bool :=
  match strtok command with
  | [] => fault                                     (* trim_space(NULL) *)
  | token0 :: _ =>
      let token := trim_space token0 in
      ret (String.eqb token "stop" || String.eqb token "cont" || String.eqb token "kill"
           || String.eqb token "exit" || String.eqb token "cd" || String.eqb token "!history"
           || first_is "#"%char token || first_is "!"%char token || String.eqb token "ps")
  end.

Definition exit_shell {A : Type} : M A :=
  s <- get;;
  (fix loop (jobs : list Z) : M unit :=
     match jobs with
     | [] => ret tt
     | j :: rest => kill_process j;; loop rest
     end) (background_jobs (current_process s));;
  exit 0.

(** [chdir(path) != -1]; every path the shell passes is absolute. *)
Definition sys_chdir (path : string) : M bool :=
  match chdir_to E path with
  | Some d => modify (set_world (set_cwd d));; ret true
  | None => ret false
  end.

Definition execute_cd (path : string) : M Z :=
  if negb (first_is "/"%char path) then
    s <- get;;
    ok <- sys_chdir (cwd (os s) ++ "/" ++ path);;
    if ok then ret 0 else say (print_no_directory path);; ret 1
  else
    sys_chdir path;;
    ok <- sys_chdir path;;
    if ok then ret 0 else say (print_no_directory path);; ret 1.

Fixpoint history_lines (i : nat) (entries : list string) : M unit :=
  match entries with
  | [] => ret tt
  | e :: rest => say (print_history_line i e);; history_lines (S i) rest
  end.

Definition execute_history : M Z :=
  s <- get;;
  history_lines 0 (previous_commands (current_process s));;
  ret 0.

Section Reentry.

(** [execute_command], which [execute_n] and [execute_prefix] call back. *)
Variable execute_command : cmdref -> M unit.

Definition execute_n (n : Z) : M Z :=
  s <- get;;
  if (n <? 0) || (Z.of_nat (List.length (previous_commands (current_process s))) <=? n) then
    say print_invalid_index;; ret 1
  else
    entry <- vector_get (previous_commands (current_process s)) (Z.to_nat n);;
    say (print_command entry);;
    execute_command (Hist (Z.to_nat n));;
    ret 0.

(** The loop of [execute_prefix]: [i] counts down from the last entry. *)
Fixpoint prefix_scan (prefix : string) (entries : list string) (i : nat) : option nat :=
  match i with
  | O => None
  | S j =>
      match nth_error entries j with
      | Some e => if strncmp_prefix prefix e then Some j else prefix_scan prefix entries j
      | None => prefix_scan prefix entries j
      end
  end.

Definition execute_prefix (prefix : string) : M Z :=
  s <- get;;
  let entries := previous_commands (current_process s) in
  match prefix_scan prefix entries (List.length entries) with
  | Some i =>
      entry <- vector_get entries i;;
      say (print_command entry);;
      execute_command (Hist i);;
      ret 0
  | None => say print_no_history_match;; ret 1
  end.

Definition execute_builtin_command (command : string) : M Z :=
  match strtok command with
  | [] => fault                                     (* strcmp(NULL, "cd") *)
  | token :: rest =>
      if String.eqb token "cd" then
        match rest with
        | [] => say (print_invalid_command (after_first_strtok command));; ret 1
        | path :: _ => execute_cd path
        end
      else if String.eqb token "!history" then execute_history
      else if first_is "#"%char token then execute_n (atoi (drop 1 token))
      else if first_is "!"%char token then execute_prefix (drop 1 command)
      else if String.eqb token "exit" then exit_shell
      else if String.eqb token "kill" then
        match rest with
        | [] => say (print_invalid_command command);; ret 1
        | token1 :: _ => kill_process (atoi token1);; ret 0
        end
      else if String.eqb token "stop" then
        match rest with
        | [] => say (print_invalid_command command);; ret 1
        | token1 :: _ => stop_process (atoi token1);; ret 0
        end
      else if String.eqb token "cont" then
        match rest with
        | [] => say (print_invalid_command command);; ret 1
        | token1 :: _ => continue_process (atoi token1);; ret 0
        end
      else if String.eqb token "ps" then execute_ps
      else say (print_invalid_command command);; ret 1
  end.

(** The [if (is_builtin_command(c)) ... else ...] that [execute_command]
    repeats for each command it runs. *)
Definition dispatch (command : string) : M Z :=
  b <- is_builtin_command command;;
  if b then execute_builtin_command command else execute_external_command command.

End Reentry.

(** ** The assembler loop of [execute_command] *)

(** The locals of the loop. *)
Record assembly : Type := mk_assembly {
  commands : list string;
  logical_operator : option string;
  current_command : option string
}.

(** [vector_push_back(commands, c)], which copies [c]. *)
Definition push_command (c : option string) (a : assembly) : M assembly :=
  match c with
  | None => fault
  | Some text =>
      ret (mk_assembly (commands a ++ [text]) (logical_operator a) (current_command a))
  end.

(** One iteration per token; [break] is the return without a recursive
    call.  A redirection operator reads the next token through
    [trim_space] before anything is stored. *)
Fixpoint assemble (tokens : list string) (a : assembly) : M assembly :=
  match tokens with
  | [] => ret a
  | token :: rest =>
      if String.eqb token "&&" || String.eqb token "||" then
        match current_command a with
        | Some c =>
            assemble rest (mk_assembly (commands a ++ [trim_space c]) (Some token) None)
        | None =>
            assemble rest (mk_assembly (commands a) (Some token) None)
        end
      else if last_is ";"%char token then
        let token' := drop_last token in
        match current_command a with
        | Some c =>
            assemble rest
              (mk_assembly (commands a ++ [trim_space (c ++ " " ++ token')]) (Some ";") None)
        | None =>
            assemble rest (mk_assembly (commands a ++ [trim_space token']) (Some ";") None)
        end
      else if String.eqb token ">" then
        match rest with
        | [] => fault
        | path :: _ =>
            modify (set_process (set_output_file (Some (trim_space path))));;
            push_command (current_command a) a
        end
      else if String.eqb token ">>" then
        match rest with
        | [] => fault
        | path :: _ =>
            modify (set_process (set_append_file (Some (trim_space path))));;
            push_command (current_command a) a
        end
      else if String.eqb token "<" then
        match rest with
        | [] => fault
        | path :: _ =>
            modify (set_process (set_input_file (Some (trim_space path))));;
            push_command (current_command a) a
        end
      else if String.eqb token "&" then
        match current_command a with
        | None => fault                             (* strcat(NULL, " ") *)
        | Some c =>
            assemble rest
              (mk_assembly (commands a) (logical_operator a) (Some (c ++ " " ++ token)))
        end
      else
        let c :=
          match current_command a with
          | None => token
          | Some c => c ++ " " ++ token
          end in
        match rest with
        | [] =>
            ret (mk_assembly (commands a ++ [trim_space c]) (logical_operator a)
                   (Some (trim_space c)))
        | _ => assemble rest (mk_assembly (commands a) (logical_operator a) (Some c))
        end
  end.

Definition empty_assembly : assembly := mk_assembly [] None None.

(** The end of [execute_command]: the line is trimmed where it lies,
    copied into the history, and appended to the history file through a
    buffer that [strcat] extends from whatever [malloc] returned. *)
Definition save_command (command : cmdref) : M unit :=
  text <- deref command;;
  let line := trim_space text in
  modify (set_process (fun p =>
    let h :=
      match command with
      | Line _ => previous_commands p
      | Hist n =>
          (firstn n (previous_commands p) ++ line :: skipn (S n) (previous_commands p))%list
      end in
    set_previous_commands (h ++ [line]) p));;
  s <- get;;
  match history_file (current_process s) with
  | None => ret tt
  | Some path =>
      if can_open E path then
        let old := match fs_read (files (os s)) path with Some c => c | None => EmptyString end in
        modify (set_world (fun w =>
          set_files (fs_write (files w) path (old ++ malloc_block E ++ line ++ String LF EmptyString)) w))
      else fault                                    (* fprintf(NULL, ...) *)
  end.

Definition out_of_fuel {A : Type} : M A := fun _ => OutOfFuel.

(** [execute_command].  [fuel] bounds the depth of re-entry.  A path
    taken from the line is kept as its text; in the C program it
    points into the copy of the line, which the operator branch frees
    at its end: a path that is still set then (the first command
    failed) is a dangling pointer there, and what a later command reads
    through it is not defined. *)
Fixpoint execute_command (fuel : nat) (command : cmdref) : M unit :=
  match fuel with
  | O => out_of_fuel
  | S fuel' =>
      let run := dispatch (execute_command fuel') in
      text <- deref command;;
      a <- assemble (strtok text) empty_assembly;;
      match logical_operator a with
      | Some op =>
          (if String.eqb op "&&" then
             c0 <- vector_get (commands a) 0;;
             exit_status <- run c0;;
             if exit_status =? 0 then
               c1 <- vector_get (commands a) 1;;
               run c1;; ret tt
             else ret tt
           else if String.eqb op "||" then
             c0 <- vector_get (commands a) 0;;
             exit_status <- run c0;;
             if negb (exit_status =? 0) then
               c1 <- vector_get (commands a) 1;;
               run c1;; ret tt
             else ret tt
           else if String.eqb op ";" then
             c0 <- vector_get (commands a) 0;;
             run c0;;
             c1 <- vector_get (commands a) 1;;
             run c1;; ret tt
           else ret tt);;
          save_command command
      | None =>
          c0 <- vector_get (commands a) 0;;
          run c0;;
          if negb (String.eqb c0 "!history") && negb (first_is "#"%char c0)
             && negb (first_is "!"%char c0)
          then save_command command
          else ret tt
      end
  end.

End Shell.

(** ** Start-up and the end of each turn of the prompt loop *)

Section Loop.

Variable E : env.

Definition set_history_file (f : option string) (p : process) : process :=
  mk_process (pid p) (previous_commands p) f (background_jobs p)
    (background_jobs_commands p) (output_file p) (input_file p) (append_file p).

(** The lines [getline] returns one after the other: each with its
    newline, the last one without when the text does not end in one. *)
Fixpoint getlines (content : string) : list string :=
  match content with
  | EmptyString => []
  | String c r =>
      if Ascii.eqb c LF then String c EmptyString :: getlines r
      else
        match getlines r with
        | [] => [String c EmptyString]
        | l :: ls => String c l :: ls
        end
  end.

(** [handle_history_file]: a file that cannot be read is created
    empty ([fclose] reads through the null pointer when that fails
    too); a file that can is pushed line by line, newlines included. *)
Definition handle_history_file (filename : string) : M unit :=
  s <- get;;
  match fs_read (files (os s)) filename with
  | None =>
      if can_open E filename
      then modify (set_world (fun w => set_files (fs_write (files w) filename EmptyString) w))
      else fault
  | Some content =>
      modify (set_process (fun p =>
        set_previous_commands (previous_commands p ++ getlines content) p))
  end;;
  modify (set_process (set_history_file (Some filename))).

Fixpoint proc_state (child : Z) (ps : list (Z * run_state)) : option run_state :=
  match ps with
  | [] => None
  | (p, r) :: rest => if p =? child then Some r else proc_state child rest
  end.

Fixpoint forget_proc (child : Z) (ps : list (Z * run_state)) : list (Z * run_state) :=
  match ps with
  | [] => []
  | (p, r) :: rest => if p =? child then rest else (p, r) :: forget_proc child rest
  end.

(** [waitpid(child, &status, WNOHANG)] on a pid of the job table: 0
    while the child lives, its pid when it has ended (and with that it
    is gone), -1 when there is no such child. *)
Definition sys_waitpid_nohang (child : Z) : M Z :=
  s <- get;;
  match proc_state child (procs (os s)) with
  | None => ret (-1)
  | Some Zombie =>
      modify (set_world (fun w => set_procs (forget_proc child (procs w)) w));;
      ret child
  | Some _ => ret 0
  end.

(** The loop that closes each turn of [shell]: [i] runs over the
    positions of the job table while [i < vector_size], also after a
    removal has shortened the table.  [n] bounds the iterations. *)
Fixpoint reap_scan (n i : nat) : M unit :=
  match n with
  | O => ret tt
  | S n' =>
      s <- get;;
      match nth_error (background_jobs (current_process s)) i with
      | None => ret tt
      | Some job =>
          r <- sys_waitpid_nohang job;;
          (if negb (r =? 0) then remove_background_job E job else ret tt);;
          reap_scan n' (S i)
      end
  end.

Definition reap_background_jobs : M unit :=
  s <- get;;
  reap_scan (List.length (background_jobs (current_process s))) 0.

End Loop.

(** The state [shell] sets up before it reads its first line. *)
Definition init_process (shell_pid : Z) : process :=
  mk_process shell_pid [] None [] [] None None None.

(** ** Vocabulary of the statements *)

(** The operator a token stands for, tested in the order of the loop:
    [&&] and [||] by equality, [;] as the last character. *)
Definition operator_of (token : string) : option string :=
  if String.eqb token "&&" || String.eqb token "||" then Some token
  else if last_is ";"%char token then Some ";"
  else None.

Definition is_redirection (token : string) : bool :=
  String.eqb token ">" || String.eqb token ">>" || String.eqb token "<".

(** The operators of a token list, in the order of the tokens. *)
Fixpoint operators (tokens : list string) : list string :=
  match tokens with
  | [] => []
  | token :: rest =>
      match operator_of token with
      | Some op => op :: operators rest
      | None => operators rest
      end
  end.

(** The tokens before the first redirection operator. *)
Fixpoint scanned (tokens : list string) : list string :=
  match tokens with
  | [] => []
  | token :: rest =>
      match operator_of token with
      | Some _ => token :: scanned rest
      | None => if is_redirection token then [] else token :: scanned rest
      end
  end.

Definition first_operator (tokens : list string) : option string :=
  hd_error (operators tokens).

Definition last_operator (tokens : list string) : option string :=
  last (map Some (operators tokens)) None.

Fixpoint no_blank (w : string) : bool :=
  match w with
  | EmptyString => true
  | String c r => negb (Ascii.eqb c SP) && no_blank r
  end.

(** A word of a command: not empty, no blank inside, none of the
    tokens the assembler treats specially, and no final character that
    [trim_space] or the [;] test would take away. *)
Definition plain (w : string) : bool :=
  negb (String.eqb w "") && no_blank w
  && negb (String.eqb w "&&") && negb (String.eqb w "||")
  && negb (String.eqb w ">") && negb (String.eqb w ">>") && negb (String.eqb w "<")
  && negb (String.eqb w "&")
  && negb (last_is ";"%char w) && negb (last_is LF w) && negb (last_is CR w).

(** A command of plain words. *)
Definition plain_command (ws : list string) : bool :=
  match ws with
  | [] => false
  | _ => forallb plain ws
  end.

(** The end of a line: nothing, or the newline [getline] leaves. *)
Definition line_end (eol : string) : Prop :=
  eol = EmptyString \/ eol = String LF EmptyString.

(** Whether the second command of a pair runs, by the operator and the
    status of the first. *)
Definition runs_second (op : string) (status : Z) : bool :=
  if String.eqb op "&&" then status =? 0
  else if String.eqb op "||" then negb (status =? 0)
  else true.

(** The text after [#] holds no number for [atoi]: past the blanks and
    one sign there is no digit. *)
Definition starts_with_digit (s : string) : bool :=
  match first_char s with
  | Some c => isdigit c
  | None => false
  end.

Definition no_number (text : string) : bool :=
  match skip_spaces text with
  | EmptyString => true
  | String c r =>
      if Ascii.eqb c "-"%char || Ascii.eqb c "+"%char
      then negb (starts_with_digit r)
      else negb (starts_with_digit (String c r))
  end.

(** The words of a command with [suffix] attached to the last one: the
    [;] that ends a first command, or the end of the line. *)
Fixpoint ending (suffix : string) (ws : list string) : list string :=
  match ws with
  | [] => []
  | [w] => [(w ++ suffix)%string]
  | w :: r => w :: ending suffix r
  end.

(** [current_command] after the loop went over plain words. *)
Definition grow (current : option string) (ws : list string) : option string :=
  fold_left
    (fun c w => Some (match c with None => w | Some text => (text ++ " " ++ w)%string end))
    ws current.

(** Words in the sense of [strtok]. *)
Definition word (w : string) : Prop := w <> EmptyString /\ no_blank w = true.

(** The line [cmd1 OP cmd2] as it is typed: blanks around [&&] and
    [||], the [;] attached to the last word of [cmd1]. *)
Definition pair_line (op : string) (cmd1 cmd2 : list string) (eol : string) : string :=
  if String.eqb op ";"
  then (join cmd1 ++ "; " ++ join cmd2 ++ eol)%string
  else (join cmd1 ++ " " ++ op ++ " " ++ join cmd2 ++ eol)%string.

(** What the specification asks of a pair: the first command runs, and
    the second runs or not by the operator and the first status. *)
Definition run_pair (run : string -> M Z) (op cmd1 cmd2 : string) : M unit :=
  (status <- run cmd1;;
   if runs_second op status then run cmd2;; ret tt else ret tt)%shell.

(** The decimal text of an integer, as [#<n>] is typed. *)
Definition digit_char (d : Z) : ascii := ascii_of_nat (48 + Z.to_nat d).

Fixpoint decimal_digits (fuel : nat) (n : Z) : string :=
  match fuel with
  | O => EmptyString
  | S fuel' =>
      String.append
        (if (n <? 10)%Z then EmptyString else decimal_digits fuel' (n / 10)%Z)
        (String (digit_char (n mod 10)%Z) EmptyString)
  end.

Definition decimal (n : Z) : string :=
  if n <? 0 then String "-"%char (decimal_digits 20 (- n)) else decimal_digits 20 n.

Fixpoint all_digits (s : string) : bool :=
  match s with
  | EmptyString => true
  | String c r => isdigit c && all_digits r
  end.

(** Several events at once. *)
Definition add_logs (ms : list msg) (w : world) : world :=
  mk_world (log w ++ ms) (files w) (cwd w) (procs w) (forks w).

(** The job table without a pid. *)
Definition without (target : Z) (jobs : list Z) : list Z :=
  filter (fun j => negb (j =? target)) jobs.

(** A relation between the state a call starts in and the state it
    ends in, however it ends. *)
Definition ends_in (R : state -> state -> Prop) {A : Type} (m : M A) : Prop :=
  forall s : state,
    match m s with
    | Ret _ s' | Exited _ s' | Killed s' | Fault s' => R s s'
    | OutOfFuel => True
    end.

(** Every pid of the job table has a command text at its position. *)
Definition tracked (s : state) : Prop :=
  (List.length (background_jobs (current_process s))
   <= List.length (background_jobs_commands (current_process s)))%nat.

(** A child that [waitpid] finds alive. *)
Definition alive (ps : list (Z * run_state)) (child : Z) : Prop :=
  proc_state child ps = Some Running \/ proc_state child ps = Some Stopped.

(** A pid a job can have: positive and not the shell's own. *)
Definition job_pid (s : state) (j : Z) : Prop :=
  0 < j /\ j <> pid (current_process s).

(** The test at the end of [execute_command] that keeps a line out of
    the history. *)
Definition inspects_history (command : string) : bool :=
  String.eqb command "!history" || first_is "#"%char command || first_is "!"%char command.

(** Two states that differ at most in the three redirection fields. *)
Definition same_but_redirections (s s' : state) : Prop :=
  os s' = os s
  /\ pid (current_process s') = pid (current_process s)
  /\ previous_commands (current_process s') = previous_commands (current_process s)
  /\ history_file (current_process s') = history_file (current_process s)
  /\ background_jobs (current_process s') = background_jobs (current_process s)
  /\ background_jobs_commands (current_process s')
     = background_jobs_commands (current_process s).


(** The field a redirection operator stores its path in. *)
Definition redirection_field (r : string) (path : option string) (p : process) : process :=
  if String.eqb r ">" then set_output_file path p
  else if String.eqb r ">>" then set_append_file path p
  else set_input_file path p.

(** The state after a child was started in the background: one more
    fork, the child among the processes, the child's report of its pid
    as the one new event, its pid and its command text at the end of
    the two vectors of the job table, the redirection fields empty. *)
Definition launched (child : Z) (text : string) (s : state) : state :=
  mk_state
    (mk_process (pid (current_process s)) (previous_commands (current_process s))
       (history_file (current_process s))
       (background_jobs (current_process s) ++ [child])
       (background_jobs_commands (current_process s) ++ [text])
       None None None)
    (mk_world (log (os s) ++ [print_command_executed child]) (files (os s)) (cwd (os s))
       (procs (os s) ++ [(child, Running)]) (S (forks (os s)))).

(** The path [cd] hands to [chdir]. *)
Definition cd_target (s : state) (path : string) : string :=
  if first_is "/"%char path then path else (cwd (os s) ++ "/" ++ path)%string.

(** From [s] to [s']: the shell's pid and the history file are the
    same, the history is not shorter, and the job table has only
    gained entries at its end, a pid and a command text at a time. *)
Definition grows (s s' : state) : Prop :=
  pid (current_process s') = pid (current_process s)
  /\ history_file (current_process s') = history_file (current_process s)
  /\ (List.length (previous_commands (current_process s))
      <= List.length (previous_commands (current_process s')))%nat
  /\ exists (pids : list Z) (texts : list string),
       background_jobs (current_process s') = (background_jobs (current_process s) ++ pids)%list
       /\ background_jobs_commands (current_process s')
          = (background_jobs_commands (current_process s) ++ texts)%list
       /\ List.length pids = List.length texts.

(** A child that has ended, or is gone already. *)
Definition finished (ps : list (Z * run_state)) (child : Z) : Prop :=
  proc_state child ps = Some Zombie \/ proc_state child ps = None.

(** The state after the loop at the end of a turn took one job out:
    the table is [jobs], the child is gone from the processes, and the
    signal sent after it was reported as finding no process. *)
Definition reaped (child : Z) (jobs : list Z) (s : state) : state :=
  mk_state
    (set_background_jobs jobs (current_process s))
    (mk_world (log (os s) ++ [print_no_process_found child]) (files (os s)) (cwd (os s))
       (forget_proc child (procs (os s))) (forks (os s))).

(** A history file as the shell writes it: every line with its newline. *)
Definition lines_text (ls : list string) : string :=
  fold_right (fun l text => (l ++ String LF text)%string) EmptyString ls.

Fixpoint no_newline (l : string) : bool :=
  match l with
  | EmptyString => true
  | String c r => negb (Ascii.eqb c LF) && no_newline r
  end.

(** What [kill_process] prints for a pid, by whether the pid names a
    process. *)
Definition kill_report (ps : list (Z * run_state)) (target : Z) : msg :=
  match proc_state target ps with
  | Some _ => print_killed_process target "command"
  | None => print_no_process_found target
  end.

(** ** A small environment to run the model in *)

Module Demo.

Definition nl : string := String LF EmptyString.

Definition image (args : list string) (stdin : option string)
  : option (string * wait_status) :=
  match args with
  | "echo" :: r => Some (join r ++ nl, WExited 0)
  | "true" :: _ => Some (EmptyString, WExited 0)
  | "false" :: _ => Some (EmptyString, WExited 1)
  | ["cat"] => Some (match stdin with Some c => c | None => EmptyString end, WExited 0)
  | _ => None
  end.

Definition stat_line : string :=
  "7 (sh) S 1 7 7 0 -1 0 0 0 0 0 250 0 0 0 20 0 1 0 4200 0 0".

Definition E : env :=
  mk_env
    (fun n => Some (100 + Z.of_nat n))
    image
    (fun path => Some path)
    (fun path => negb (String.eqb path ""))
    (fun _ _ => false)
    (fun _ => Some ["Name: sh"; "VmSize: 2048 kB"; "Threads: 1"])
    (fun _ => Some stat_line)
    100 1000
    (fun t => "0:0" ++ String (ascii_of_nat (48 + Z.to_nat t)) EmptyString)
    (fun _ => "12:00")
    EmptyString.

(** The same machine out of process slots. *)
Definition E_nofork : env :=
  mk_env (fun _ => None) image (chdir_to E) (can_open E) (kill_group E)
    (proc_status E) (proc_stat E) (clk_tck E) (boot_time E)
    (gmtime_string E) (localtime_string E) (malloc_block E).

Definition w0 : world := mk_world [] [] "/" [] 0.

Definition s0 : state := mk_state (init_process 1) w0.

(** [out.txt] exists and holds eleven bytes. *)
Definition s_file : state :=
  mk_state (init_process 1) (mk_world [] [("out.txt", "hello world")] "/" [] 0).

(** Two entries in the history. *)
Definition s_hist : state :=
  mk_state (mk_process 1 ["echo a"; "echo b"] None [] [] None None None) w0.

(** Two jobs tracked; the second has been reaped already. *)
Definition s_jobs : state :=
  mk_state (mk_process 1 [] None [100; 101] ["sleep 5 "; "sleep 9 "] None None None)
    (mk_world [] [] "/" [(100, Running)] 2).

(** The history holds a line that re-runs itself. *)
Definition s_loop : state :=
  mk_state (mk_process 1 ["#0 && ls"] None [] [] None None None) w0.

(** Two jobs tracked, both ended and not yet waited for. *)
Definition s_two_ended : state :=
  mk_state (mk_process 1 [] None [100; 101] ["sleep 1 "; "sleep 2 "] None None None)
    (mk_world [] [] "/" [(100, Zombie); (101, Zombie)] 2).

(** A history file with two lines, as an earlier session left it. *)
Definition s_saved : state :=
  mk_state (mk_process 1 [] (Some "hist") [] [] None None None)
    (mk_world [] [("hist", lines_text ["ls -l"; "pwd"])] "/" [] 0).

End Demo.

(** * Properties *)

(** ** The C library helpers on examples *)

Example strtok_skips_blanks : strtok "  ls  -l   /tmp " = ["ls"; "-l"; "/tmp"].
Proof. reflexivity. Qed.

Example strtok_keeps_newline :
  strtok ("ls >" ++ Demo.nl) = ["ls"; ">" ++ Demo.nl].
Proof. reflexivity. Qed.

Example after_first_strtok_ex : after_first_strtok " ls -l" = " ls".
Proof. reflexivity. Qed.

Example atoi_digits : atoi "42abc" = 42 /\ atoi "-7" = -7 /\ atoi "abc" = 0 /\ atoi "" = 0.
Proof. repeat split; reflexivity. Qed.

Example atoi_wraps : atoi "4294967296" = 0 /\ atoi "99999999999999999999" = -1.
Proof. split; reflexivity. Qed.

Example trim_space_once :
  trim_space "ls " = "ls" /\ trim_space "ls  " = "ls " /\ trim_space "" = "".
Proof. repeat split; reflexivity. Qed.

(** ** The monad *)

Lemma bind_ret {A B : Type} (a : A) (k : A -> M B) (s : state) :
  bind (ret a) k s = k a s.
Proof. reflexivity. Qed.

Lemma bind_Ret {A B : Type} (m : M A) (k : A -> M B) (s s' : state) (a : A) :
  m s = Ret a s' -> bind m k s = k a s'.
Proof. intros H. unfold bind. now rewrite H. Qed.

Lemma bind_Fault {A B : Type} (m : M A) (k : A -> M B) (s s' : state) :
  m s = Fault s' -> bind m k s = Fault s'.
Proof. intros H. unfold bind. now rewrite H. Qed.

Lemma bind_assoc {A B C : Type} (m : M A) (k : A -> M B) (h : B -> M C) (s : state) :
  bind (bind m k) h s = bind m (fun a => bind (k a) h) s.
Proof. unfold bind. destruct (m s); reflexivity. Qed.

(** ** Strings *)

Lemma substring_all (s : string) : substring 0 (String.length s) s = s.
Proof. induction s as [|c r IH]; simpl; [reflexivity | now rewrite IH]. Qed.

Lemma drop_one (c : ascii) (s : string) : drop 1 (String c s) = s.
Proof.
  unfold drop. simpl. rewrite Nat.sub_0_r. apply substring_all.
Qed.

Lemma saturate_zero : saturate 0 = 0.
Proof. reflexivity. Qed.

Lemma digits_no_digit (s : string) : starts_with_digit s = false -> digits 0 s = 0.
Proof.
  destruct s as [|c r]; simpl; [reflexivity|].
  unfold starts_with_digit. simpl. intros H. now rewrite H.
Qed.

(** Without a digit to read, [atoi] answers 0. *)
Lemma atoi_no_number (text : string) : no_number text = true -> atoi text = 0.
Proof.
  unfold no_number, atoi, strtol. intros H.
  destruct (skip_spaces text) as [|c r]; [reflexivity|].
  destruct (Ascii.eqb c "-"%char); simpl in H.
  - apply negb_true_iff in H. now rewrite (digits_no_digit _ H).
  - destruct (Ascii.eqb c "+"%char); simpl in H;
      apply negb_true_iff in H; now rewrite (digits_no_digit _ H).
Qed.

(** ** History re-invocation: [#<n>] *)

(** A command whose first token starts with [#] goes to [execute_n]
    with what [atoi] reads after the [#]. *)
Lemma builtin_hash (E : env) (rec : cmdref -> M unit)
      (command text : string) (rest : list string) (s : state) :
  strtok command = String "#" text :: rest ->
  execute_builtin_command E rec command s = execute_n rec (atoi text) s.
Proof.
  intros Htok. unfold execute_builtin_command. rewrite Htok.
  simpl. now rewrite drop_one.
Qed.

Lemma execute_n_invalid (rec : cmdref -> M unit) (n : Z) (s : state) :
  n < 0 \/ Z.of_nat (List.length (previous_commands (current_process s))) <= n ->
  execute_n rec n s = Ret 1 (set_world (add_log print_invalid_index) s).
Proof.
  intros H. unfold execute_n, bind, get.
  replace ((n <? 0) || (Z.of_nat (List.length (previous_commands (current_process s))) <=? n))
    with true; [reflexivity|].
  symmetry. apply orb_true_iff.
  destruct H; [left; now apply Z.ltb_lt | right; now apply Z.leb_le].
Qed.

Lemma execute_n_valid (rec : cmdref -> M unit) (n : Z) (s : state) (entry : string) :
  0 <= n ->
  nth_error (previous_commands (current_process s)) (Z.to_nat n) = Some entry ->
  execute_n rec n s =
  bind (rec (Hist (Z.to_nat n))) (fun _ => ret 0)
       (set_world (add_log (print_command entry)) s).
Proof.
  intros Hn Hnth. unfold execute_n, bind at 1, get.
  assert (Hlen : (Z.to_nat n < List.length (previous_commands (current_process s)))%nat).
  { apply nth_error_Some. congruence. }
  replace ((n <? 0) || (Z.of_nat (List.length (previous_commands (current_process s))) <=? n))
    with false.
  - unfold vector_get. rewrite Hnth. reflexivity.
  - symmetry. apply orb_false_iff. split; [apply Z.ltb_ge | apply Z.leb_gt]; lia.
Qed.

(** [execute_n] by its argument: for every [n] outside [0, length of
    the history) it reports the invalid index, returns 1 and calls
    nothing back, whatever the callback is; for [n] inside the range it
    prints the stored entry and runs it through [execute_command], the
    whole pipeline, from the history buffer itself. *)
Theorem execute_n_range (E : env) (fuel : nat) (n : Z) (s : state) :
  (n < 0 \/ Z.of_nat (List.length (previous_commands (current_process s))) <= n ->
   forall rec : cmdref -> M unit,
     execute_n rec n s = Ret 1 (set_world (add_log print_invalid_index) s))
  /\
  (0 <= n < Z.of_nat (List.length (previous_commands (current_process s))) ->
   exists entry : string,
     nth_error (previous_commands (current_process s)) (Z.to_nat n) = Some entry
     /\ execute_n (execute_command E fuel) n s =
        bind (execute_command E fuel (Hist (Z.to_nat n))) (fun _ => ret 0)
             (set_world (add_log (print_command entry)) s)).
Proof.
  split.
  - intros H rec. now apply execute_n_invalid.
  - intros [H0 Hlt].
    destruct (nth_error (previous_commands (current_process s)) (Z.to_nat n)) as [entry|] eqn:Hnth.
    + exists entry. split; [reflexivity | now apply execute_n_valid].
    + apply nth_error_None in Hnth. lia.
Qed.

Lemma execute_n_range_witness :
  execute_n (execute_command Demo.E 3) 7 Demo.s_hist
  = Ret 1 (set_world (add_log print_invalid_index) Demo.s_hist)
  /\ exists entry : string,
       nth_error (previous_commands (current_process Demo.s_hist)) (Z.to_nat 1) = Some entry
       /\ execute_n (execute_command Demo.E 3) 1 Demo.s_hist =
          bind (execute_command Demo.E 3 (Hist (Z.to_nat 1))) (fun _ => ret 0)
               (set_world (add_log (print_command entry)) Demo.s_hist).
Proof.
  split.
  - apply (proj1 (execute_n_range Demo.E 3 7 Demo.s_hist)). right. simpl. lia.
  - apply (proj2 (execute_n_range Demo.E 3 1 Demo.s_hist)). simpl. lia.
Defined.

Example hash_in_range_runs_entry :
  exists s' : state,
    execute_command Demo.E 3 (Line "#1") Demo.s_hist = Ret tt s'
    /\ log (os s') = [print_command "echo b"; print_command_executed 100;
                      program_output ("b" ++ Demo.nl)]
    /\ previous_commands (current_process s') = ["echo a"; "echo b"; "echo b"].
Proof. eexists. repeat split. Qed.

(** C10: when the text after [#] holds no number, [atoi] gives 0: with
    a non-empty history the oldest entry is printed and run again, and
    only with an empty history the invalid index is reported. *)
Theorem hash_without_number (E : env) (fuel : nat)
        (command text : string) (rest : list string) (s : state) :
  strtok command = String "#" text :: rest ->
  no_number text = true ->
  execute_builtin_command E (execute_command E fuel) command s =
  match previous_commands (current_process s) with
  | [] => Ret 1 (set_world (add_log print_invalid_index) s)
  | oldest :: _ =>
      bind (execute_command E fuel (Hist 0)) (fun _ => ret 0)
           (set_world (add_log (print_command oldest)) s)
  end.
Proof.
  intros Htok Hno.
  rewrite (@builtin_hash E _ command text rest s Htok), (atoi_no_number _ Hno).
  destruct (previous_commands (current_process s)) as [|oldest h] eqn:Hh.
  - apply execute_n_invalid. rewrite Hh. simpl. lia.
  - apply (@execute_n_valid _ 0 s oldest); [lia | now rewrite Hh].
Qed.

Lemma hash_without_number_witness :
  execute_builtin_command Demo.E (execute_command Demo.E 3) "#abc" Demo.s_hist =
  bind (execute_command Demo.E 3 (Hist 0)) (fun _ => ret 0)
       (set_world (add_log (print_command "echo a")) Demo.s_hist).
Proof.
  apply (@hash_without_number Demo.E 3 "#abc" "abc" [] Demo.s_hist); reflexivity.
Defined.

Example hash_alone_runs_oldest :
  exists s' : state,
    execute_command Demo.E 3 (Line "#") Demo.s_hist = Ret tt s'
    /\ log (os s') = [print_command "echo a"; print_command_executed 100;
                      program_output ("a" ++ Demo.nl)].
Proof. eexists. split; reflexivity. Qed.

Example hash_alone_empty_history :
  execute_command Demo.E 3 (Line "#abc") Demo.s0
  = Ret tt (set_world (add_log print_invalid_index) Demo.s0).
Proof. reflexivity. Qed.

(** ** Signals to a pid that names no process *)

Lemma signal_proc_missing (target : Z) (sig : signal) (ps : list (Z * run_state)) :
  ~ In target (map fst ps) -> signal_proc target sig ps = None.
Proof.
  induction ps as [|[p r] ps IH]; simpl; intros H; [reflexivity|].
  destruct (Z.eqb_spec p target) as [->|Hne].
  - exfalso. apply H. now left.
  - rewrite IH; [reflexivity | tauto].
Qed.

Lemma signal_proc_present (target : Z) (sig : signal) (ps : list (Z * run_state)) :
  In target (map fst ps) -> exists ps', signal_proc target sig ps = Some ps'.
Proof.
  induction ps as [|[p r] ps IH]; simpl; intros H; [contradiction|].
  destruct (Z.eqb_spec p target) as [->|Hne].
  - eexists. reflexivity.
  - destruct IH as [ps' Hps']; [tauto|]. rewrite Hps'. eexists. reflexivity.
Qed.

Lemma sys_kill_other (E : env) (target : Z) (sig : signal) (s : state) :
  0 < target ->
  target <> pid (current_process s) ->
  sys_kill E target sig s =
  match signal_proc target sig (procs (os s)) with
  | Some ps => Ret true (set_world (set_procs ps) s)
  | None => Ret false s
  end.
Proof.
  intros Hpos Hself. unfold sys_kill, bind, get.
  apply Z.eqb_neq in Hself. rewrite Hself.
  replace (target =? 0) with false by (symmetry; apply Z.eqb_neq; lia).
  apply Z.ltb_lt in Hpos. rewrite Hpos. cbn [orb].
  destruct (signal_proc target sig (procs (os s))); reflexivity.
Qed.





(** ** Redirection fields after an external command *)

(** When [fork] fails the function returns before the fields are
    cleared. *)
Lemma fork_failure_keeps_redirections (E : env) (command : string) (c : ascii) (s : state) :
  last_char command = Some c ->
  fork_result E (forks (os s)) = None ->
  execute_external_command E command s
  = Ret 1 (set_world (fun w => add_log print_fork_failed (count_fork w)) s).
Proof.
  intros Hlast Hfork. unfold execute_external_command.
  rewrite Hlast. unfold bind, get, modify. simpl. rewrite Hfork. reflexivity.
Qed.

(** So does a foreground child that exits with a status other than 0. *)
Lemma nonzero_exit_keeps_redirections (E : env) (command : string) (c : ascii)
      (child code : Z) (w : world) (s : state) :
  last_char command = Some c ->
  Ascii.eqb c "&"%char = false ->
  fork_result E (forks (os s)) = Some child ->
  child_process E (current_process s) child command (count_fork (os s)) = (w, WExited code) ->
  code <> 0 ->
  execute_external_command E command s = Ret 1 (mk_state (current_process s) w).
Proof.
  intros Hlast Hfg Hfork Hchild Hcode. unfold execute_external_command.
  rewrite Hlast, Hfg. unfold bind, get, modify. simpl. rewrite Hfork. simpl.
  rewrite Hchild. simpl.
  apply Z.eqb_neq in Hcode. now rewrite Hcode.
Qed.

(** On success and in the background they are cleared. *)
Lemma background_clears_redirections (E : env) (command : string) (child : Z) (s : state) :
  last_char command = Some "&"%char ->
  fork_result E (forks (os s)) = Some child ->
  exists s' : state,
    execute_external_command E command s = Ret 0 s'
    /\ output_file (current_process s') = None
    /\ append_file (current_process s') = None
    /\ input_file (current_process s') = None.
Proof.
  intros Hlast Hfork. unfold execute_external_command.
  rewrite Hlast. unfold bind, get, modify. simpl. rewrite Hfork. simpl.
  eexists. split; [reflexivity|]. simpl. auto.
Qed.

(** C5, on the code: after [false > out.txt] (the child exits with 1)
    and after [echo hi > out.txt] on a machine where [fork] fails, the
    output path is still set; the next command, [echo hi], then writes
    into [out.txt] instead of the terminal. *)
Theorem redirection_survives_failure :
  (exists s1 : state,
     execute_command Demo.E 3 (Line "false > out.txt") Demo.s0 = Ret tt s1
     /\ output_file (current_process s1) = Some "out.txt"
     /\ exists s2 : state,
          execute_command Demo.E 3 (Line "echo hi") s1 = Ret tt s2
          /\ files (os s2) = [("out.txt", "hi" ++ Demo.nl)]
          /\ ~ In (program_output ("hi" ++ Demo.nl)) (log (os s2)))
  /\
  (exists s1 : state,
     execute_command Demo.E_nofork 3 (Line "echo hi > out.txt") Demo.s0 = Ret tt s1
     /\ output_file (current_process s1) = Some "out.txt"
     /\ log (os s1) = [print_fork_failed]).
Proof.
  split.
  - eexists. split; [vm_compute; reflexivity|]. split; [reflexivity|].
    eexists. split; [vm_compute; reflexivity|]. split; [reflexivity|].
    simpl. intros [H|[H|[]]]; discriminate H.
  - eexists. split; [vm_compute; reflexivity|]. split; reflexivity.
Qed.

(** ** The job table *)

Lemma without_absent (target : Z) (jobs : list Z) :
  ~ In target jobs -> without target jobs = jobs.
Proof.
  induction jobs as [|j jobs IH]; simpl; intros H; [reflexivity|].
  destruct (Z.eqb_spec j target) as [->|Hne]; simpl.
  - exfalso. apply H. now left.
  - rewrite IH; [reflexivity | tauto].
Qed.

Lemma nth_error_middle (pre post : list Z) (x : Z) :
  nth_error (pre ++ x :: post) (List.length pre) = Some x.
Proof. induction pre; simpl; auto. Qed.

Lemma nth_error_end (pre : list Z) : nth_error pre (List.length pre) = None.
Proof. induction pre; simpl; auto. Qed.

Lemma vector_erase_middle (pre post : list Z) (x : Z) :
  vector_erase (pre ++ x :: post) (List.length pre) = (pre ++ post)%list.
Proof. induction pre as [|y pre IH]; simpl; [reflexivity | now rewrite IH]. Qed.

Lemma remove_scan_past (target : Z) (n i : nat) (jobs : list Z) :
  (List.length jobs <= i)%nat -> remove_scan n i target jobs = jobs.
Proof.
  intros H. destruct n; simpl; [reflexivity|].
  apply nth_error_None in H. now rewrite H.
Qed.

(** The scan leaves alone a table that does not hold the pid. *)
Lemma remove_scan_absent (target : Z) (n : nat) (pre post : list Z) :
  ~ In target post ->
  remove_scan n (List.length pre) target (pre ++ post) = (pre ++ post)%list.
Proof.
  revert pre post. induction n as [|n IH]; intros pre post Hin; simpl; [reflexivity|].
  destruct post as [|x post].
  - rewrite app_nil_r, nth_error_end. reflexivity.
  - rewrite nth_error_middle.
    destruct (Z.eqb_spec x target) as [->|Hne].
    + exfalso. apply Hin. now left.
    + replace (pre ++ x :: post)%list with ((pre ++ [x]) ++ post)%list
        by (rewrite <- app_assoc; reflexivity).
      replace (S (List.length pre)) with (List.length (pre ++ [x])%list)
        by (rewrite length_app; simpl; lia).
      apply IH. intros H. apply Hin. now right.
Qed.

(** With distinct pids the scan removes the pid it looks for. *)
Lemma remove_scan_distinct (target : Z) (n : nat) (pre post : list Z) :
  NoDup post ->
  (List.length post <= n)%nat ->
  remove_scan n (List.length pre) target (pre ++ post) = (pre ++ without target post)%list.
Proof.
  revert pre post. induction n as [|n IH]; intros pre post Hnd Hlen.
  - destruct post; [reflexivity | simpl in Hlen; lia].
  - simpl. destruct post as [|x post].
    + simpl. rewrite !app_nil_r, nth_error_end. reflexivity.
    + rewrite nth_error_middle. simpl.
      inversion Hnd as [|? ? Hx Hnd']; subst.
      destruct (Z.eqb_spec x target) as [->|Hne]; simpl.
      * rewrite vector_erase_middle, (without_absent target post Hx).
        destruct post as [|y post];
          [apply remove_scan_past; rewrite app_nil_r; lia|].
        replace (pre ++ y :: post)%list with ((pre ++ [y]) ++ post)%list
          by (rewrite <- app_assoc; reflexivity).
        replace (S (List.length pre)) with (List.length (pre ++ [y])%list)
          by (rewrite length_app; simpl; lia).
        apply remove_scan_absent. intros H. apply Hx. now right.
      * replace (pre ++ x :: post)%list with ((pre ++ [x]) ++ post)%list
          by (rewrite <- app_assoc; reflexivity).
        replace (S (List.length pre)) with (List.length (pre ++ [x])%list)
          by (rewrite length_app; simpl; lia).
        rewrite IH; [| assumption | simpl in Hlen; lia].
        rewrite <- app_assoc. reflexivity.
Qed.

(** Two equal pids side by side: the scan steps over the second. *)
Example remove_scan_skips : remove_scan 3 0 5 [5; 5; 7] = [5; 7].
Proof. reflexivity. Qed.

(** C7, as the code has it: with distinct pids in the table,
    [remove_background_job] takes the pid out of the pid vector (the
    vector of command texts is left as it is) and sends [SIGKILL] to
    it; nothing is returned to the caller, and the result of the signal
    is always reported: the killed-process message when the signal was
    delivered, the process-not-found message when the pid is gone. *)
Theorem remove_background_job_reports (E : env) (target : Z) (s : state) :
  NoDup (background_jobs (current_process s)) ->
  0 < target ->
  target <> pid (current_process s) ->
  remove_background_job E target s =
  let s1 := set_process (fun p => set_background_jobs (without target (background_jobs p)) p) s in
  match signal_proc target SIGKILL (procs (os s)) with
  | Some ps =>
      Ret tt (set_world (add_log (print_killed_process target "command"))
                (set_world (set_procs ps) s1))
  | None => Ret tt (set_world (add_log (print_no_process_found target)) s1)
  end.
Proof.
  intros Hnd Hpos Hself.
  pose proof (remove_scan_distinct target _ [] _ Hnd (le_n _)) as Hscan.
  simpl in Hscan.
  unfold remove_background_job, kill_process.
  unfold bind at 1, modify at 1. unfold bind at 1.
  rewrite sys_kill_other by assumption.
  unfold set_process. cbv beta. cbn [os current_process]. rewrite Hscan.
  destruct (signal_proc target SIGKILL (procs (os s))); reflexivity.
Qed.

Lemma remove_background_job_reports_witness :
  remove_background_job Demo.E 101 Demo.s_jobs =
  Ret tt (set_world (add_log (print_no_process_found 101))
            (set_process (fun p => set_background_jobs [100] p) Demo.s_jobs)).
Proof.
  apply (remove_background_job_reports Demo.E 101 Demo.s_jobs).
  - simpl. repeat constructor; simpl; intros H; repeat destruct H as [H|H]; try discriminate H; exact H.
  - reflexivity.
  - discriminate.
Defined.

(** C7, as stated, fails: the pid 101 is gone, and removing it from
    the table prints the process-not-found message. *)
Lemma remove_dead_job_is_reported :
  ~ (exists s' : state,
       remove_background_job Demo.E 101 Demo.s_jobs = Ret tt s'
       /\ log (os s') = log (os Demo.s_jobs)).
Proof.
  intros (s' & Hrun & Hlog).
  vm_compute in Hrun. injection Hrun as <-. discriminate Hlog.
Qed.

(** ** [ps] *)

Lemma scan_status_pid (lines : list string) (info : process_info) :
  info_pid (scan_status lines info) = info_pid info.
Proof.
  revert info. induction lines as [|line lines IH]; intros info; simpl; [reflexivity|].
  rewrite IH.
  destruct (strncmp_prefix "Threads:" line), (strncmp_prefix "VmSize:" line); reflexivity.
Qed.

Lemma get_process_info_pid (E : env) (target : Z) (info : process_info) :
  get_process_info E target = Some info -> info_pid info = target.
Proof.
  unfold get_process_info. intros H.
  destruct (proc_status E target); [|discriminate].
  destruct (proc_stat E target); [|discriminate].
  destruct (nth_error (strtok s) 2); [|discriminate].
  destruct (nth_error (strtok s) 13); [|discriminate].
  destruct (nth_error (strtok s) 21); [|discriminate].
  injection H as <-. reflexivity.
Qed.

Lemma add_logs_cons (m : msg) (ms : list msg) (s : state) :
  set_world (add_logs ms) (set_world (add_log m) s) = set_world (add_logs (m :: ms)) s.
Proof.
  destruct s as [p w]. unfold set_world, add_logs, add_log. simpl.
  now rewrite <- app_assoc.
Qed.

Lemma add_logs_nil (s : state) : set_world (add_logs []) s = s.
Proof.
  destruct s as [p [l f c pr fk]]. unfold set_world, add_logs. simpl.
  now rewrite app_nil_r.
Qed.

Lemma add_logs_app (ms ms' : list msg) (s : state) :
  set_world (add_logs ms') (set_world (add_logs ms) s) = set_world (add_logs (ms ++ ms')) s.
Proof.
  destruct s as [p w]. unfold set_world, add_logs. simpl.
  now rewrite <- app_assoc.
Qed.

(** The loop prints one row per job it is given, in their order. *)
Lemma ps_rows_prints (E : env) (jobs : list Z) (i : nat) (s : state) :
  Forall (fun j => get_process_info E j <> None) jobs ->
  (i + List.length jobs <= List.length (background_jobs_commands (current_process s)))%nat ->
  exists infos : list process_info,
    ps_rows E i jobs s = Ret tt (set_world (add_logs (map print_process_info infos)) s)
    /\ map info_pid infos = jobs.
Proof.
  revert i s. induction jobs as [|j jobs IH]; intros i s Hall Hlen.
  - exists []. simpl. split; [|reflexivity]. unfold ret. now rewrite add_logs_nil.
  - inversion Hall as [|? ? Hj Hall']; subst.
    destruct (get_process_info E j) as [info|] eqn:Hinfo; [|congruence].
    simpl in Hlen.
    destruct (nth_error (background_jobs_commands (current_process s)) i) as [c|] eqn:Hc;
      [| apply nth_error_None in Hc; lia].
    destruct (IH (S i) (set_world (add_log (print_process_info (with_command c info))) s) Hall')
      as (infos & Hrows & Hpids).
    { simpl. lia. }
    exists (with_command c info :: infos). split.
    + simpl. rewrite Hinfo. unfold or_fault, bind at 1, ret.
      unfold bind at 1, get. unfold bind at 1, vector_get. rewrite Hc. unfold ret.
      unfold bind at 1, say, modify.
      rewrite Hrows. now rewrite add_logs_cons.
    + simpl. now rewrite (get_process_info_pid E j info Hinfo), Hpids.
Qed.

(** C9: when the [/proc] entries of the tracked pids and of the shell
    can be read, [ps] prints the header, then exactly one row per
    tracked job in the order of the job table, then one row for the
    shell's own pid, last; this for any number of jobs. *)
Theorem execute_ps_rows (E : env) (s : state) :
  Forall (fun j => get_process_info E j <> None)
         (background_jobs (current_process s) ++ [pid (current_process s)]) ->
  (List.length (background_jobs (current_process s))
   <= List.length (background_jobs_commands (current_process s)))%nat ->
  exists infos : list process_info,
    execute_ps E s
    = Ret 0 (set_world (add_logs (print_process_info_header :: map print_process_info infos)) s)
    /\ map info_pid infos = (background_jobs (current_process s) ++ [pid (current_process s)])%list.
Proof.
  intros Hall Hlen.
  apply Forall_app in Hall. destruct Hall as [Hjobs Hshell].
  inversion Hshell as [|? ? Hself _]; subst.
  destruct (get_process_info E (pid (current_process s))) as [self|] eqn:Hinfo; [|congruence].
  destruct (ps_rows_prints E (background_jobs (current_process s)) 0
              (set_world (add_log print_process_info_header) s) Hjobs)
    as (infos & Hrows & Hpids).
  { simpl. exact Hlen. }
  exists (infos ++ [with_command "./shell" self])%list. split.
  - unfold execute_ps. unfold bind at 1, say, modify.
    unfold bind at 1, get. unfold bind at 1.
    simpl current_process at 1. simpl in Hrows. rewrite Hrows.
    unfold bind at 1. simpl. rewrite Hinfo. simpl.
    unfold bind, say, modify, ret.
    rewrite map_app. simpl.
    f_equal. destruct s as [p [l f c pr fk]]. unfold set_world, add_logs, add_log. simpl.
    f_equal. f_equal. rewrite <- !app_assoc. reflexivity.
  - rewrite map_app, Hpids. simpl.
    now rewrite (get_process_info_pid E _ self Hinfo).
Qed.

Lemma execute_ps_rows_witness :
  exists infos : list process_info,
    execute_ps Demo.E Demo.s_jobs
    = Ret 0 (set_world (add_logs (print_process_info_header :: map print_process_info infos))
               Demo.s_jobs)
    /\ map info_pid infos = [100; 101; 1].
Proof.
  apply (execute_ps_rows Demo.E Demo.s_jobs).
  - repeat constructor; discriminate.
  - simpl. lia.
Defined.

Example ps_without_jobs :
  exists info : process_info,
    execute_ps Demo.E Demo.s0
    = Ret 0 (set_world (add_logs [print_process_info_header; print_process_info info]) Demo.s0)
    /\ info_pid info = 1 /\ info_command info = Some "./shell"
    /\ info_vsize info = Some 2048 /\ info_nthreads info = Some 1
    /\ info_state info = Some "S"%char.
Proof. eexists. split; [vm_compute; reflexivity|]. repeat split. Qed.

(** No [/proc] entry for a tracked pid: the listing stops in a fault
    after the header. *)
Example ps_unreadable_proc :
  let E' := mk_env (fork_result Demo.E) (image Demo.E) (chdir_to Demo.E) (can_open Demo.E)
              (kill_group Demo.E) (fun _ => None) (proc_stat Demo.E) (clk_tck Demo.E)
              (boot_time Demo.E) (gmtime_string Demo.E) (localtime_string Demo.E)
              (malloc_block Demo.E) in
  execute_ps E' Demo.s_jobs = Fault (set_world (add_log print_process_info_header) Demo.s_jobs).
Proof. reflexivity. Qed.

(** ** Output redirection with [>] *)

Lemma fs_read_write (fs : list (string * string)) (path content : string) :
  fs_read (fs_write fs path content) path = Some content.
Proof.
  induction fs as [|[p c] fs IH]; simpl.
  - now rewrite String.eqb_refl.
  - destruct (String.eqb p path) eqn:Hp; simpl; rewrite Hp; [reflexivity | exact IH].
Qed.

Lemma fs_read_create (fs : list (string * string)) (path : string) :
  fs_read (fs_create fs path) path
  = Some (match fs_read fs path with Some c => c | None => EmptyString end).
Proof.
  unfold fs_create. destruct (fs_read fs path) eqn:H; [exact H | apply fs_read_write].
Qed.

Lemma fs_write_create (fs : list (string * string)) (path content : string) :
  fs_write (fs_create fs path) path content = fs_write fs path content.
Proof.
  unfold fs_create. destruct (fs_read fs path) eqn:H; [reflexivity|].
  induction fs as [|[p c] fs IH]; simpl in *.
  - now rewrite String.eqb_refl.
  - destruct (String.eqb p path) eqn:Hp; [discriminate|].
    simpl. rewrite Hp. now rewrite IH.
Qed.

(** The file behind [>] is opened without truncation and written from
    its start: what the program writes replaces as many bytes of the
    old contents, and the rest of the old contents stays. *)
Lemma output_redirection_overwrites (E : env) (p : process) (child : Z)
      (command path bytes : string) (status : wait_status) (w : world) :
  output_file p = Some path ->
  append_file p = None ->
  input_file p = None ->
  can_open E path = true ->
  strtok command <> [] ->
  image E (strtok command) None = Some (bytes, status) ->
  child_process E p child command w =
  (set_files
     (fs_write (files w) path
        (write_over (match fs_read (files w) path with Some c => c | None => EmptyString end)
                    bytes))
     (add_log (print_command_executed child) w),
   status).
Proof.
  intros Hout Happ Hin Hopen Hargs Himage.
  unfold child_process. rewrite Hout, Happ, Hin, Hopen. simpl.
  destruct (strtok command) as [|a args] eqn:Htok; [congruence|].
  rewrite Himage. unfold emit, set_files, add_log. simpl.
  now rewrite fs_read_create, fs_write_create.
Qed.

Example write_over_shorter : write_over "hello world" "hi" = "hillo world".
Proof. reflexivity. Qed.

Example write_over_longer : write_over "hi" "hello" = "hello".
Proof. reflexivity. Qed.

(** C4, on the code: [out.txt] holds [hello world]; after
    [echo hi > out.txt] it holds [hi], a newline and the last eight
    bytes of the old contents, because the file is opened without
    [O_TRUNC]. *)
Theorem output_redirection_keeps_old_tail :
  exists s' : state,
    execute_command Demo.E 3 (Line "echo hi > out.txt") Demo.s_file = Ret tt s'
    /\ fs_read (files (os s')) "out.txt" = Some ("hi" ++ Demo.nl ++ "lo world")
    /\ fs_read (files (os s')) "out.txt" <> Some ("hi" ++ Demo.nl).
Proof.
  eexists. split; [vm_compute; reflexivity|]. split; [reflexivity | discriminate].
Qed.

(** On a file that did not exist, or was not longer than the output,
    the result is the output alone. *)
Example output_redirection_fresh_file :
  exists s' : state,
    execute_command Demo.E 3 (Line "echo hi > out.txt") Demo.s0 = Ret tt s'
    /\ fs_read (files (os s')) "out.txt" = Some ("hi" ++ Demo.nl).
Proof. eexists. split; [vm_compute; reflexivity | reflexivity]. Qed.

(** ** Words, tokens and [trim_space] *)

Lemma append_assoc (a b c : string) : ((a ++ b) ++ c = a ++ (b ++ c))%string.
Proof. induction a as [|x a IH]; simpl; [reflexivity | now rewrite IH]. Qed.

Lemma append_nil_r (a : string) : (a ++ EmptyString = a)%string.
Proof. induction a as [|x a IH]; simpl; [reflexivity | now rewrite IH]. Qed.

Lemma last_char_app (p w : string) :
  w <> EmptyString -> last_char (p ++ w) = last_char w.
Proof.
  intros Hw. induction p as [|x p IH]; [reflexivity|].
  simpl. destruct (p ++ w)%string eqn:Happ; [|exact IH].
  destruct p; simpl in Happ; [congruence | discriminate].
Qed.

Lemma last_char_snoc (p : string) (c : ascii) :
  last_char (p ++ String c EmptyString) = Some c.
Proof. rewrite last_char_app; [reflexivity | discriminate]. Qed.

Lemma drop_last_snoc (p : string) (c : ascii) :
  drop_last (p ++ String c EmptyString) = p.
Proof.
  induction p as [|x p IH]; [reflexivity|].
  simpl. rewrite IH. destruct (p ++ String c EmptyString)%string eqn:Happ; [|reflexivity].
  destruct p; discriminate.
Qed.

Lemma last_is_app (c : ascii) (p w : string) :
  w <> EmptyString -> last_is c (p ++ w) = last_is c w.
Proof. intros Hw. unfold last_is. now rewrite last_char_app. Qed.

(** A string that ends otherwise than a literal is not that literal. *)
Lemma eqb_by_last (x lit : string) (c : ascii) :
  last_is c x = true -> last_is c lit = false -> String.eqb x lit = false.
Proof.
  intros Hx Hlit. apply String.eqb_neq. intros ->. congruence.
Qed.

(** What [plain] says, piece by piece. *)
Lemma plain_inv (w : string) :
  plain w = true ->
  w <> EmptyString /\ no_blank w = true
  /\ String.eqb w "&&" = false /\ String.eqb w "||" = false
  /\ String.eqb w ">" = false /\ String.eqb w ">>" = false /\ String.eqb w "<" = false
  /\ String.eqb w "&" = false
  /\ last_is ";"%char w = false /\ last_is LF w = false /\ last_is CR w = false.
Proof.
  unfold plain. intros H.
  repeat (apply andb_true_iff in H; destruct H as [H ?]).
  repeat match goal with
         | Hn : negb _ = true |- _ => apply negb_true_iff in Hn
         end.
  apply String.eqb_neq in H.
  repeat split; assumption.
Qed.

Lemma no_blank_last (w : string) :
  w <> EmptyString -> no_blank w = true -> last_is SP w = false.
Proof.
  intros Hw. unfold last_is. induction w as [|c w IH]; [congruence|].
  simpl. intros H. apply andb_true_iff in H. destruct H as [Hc Hrest].
  destruct w as [|d w].
  - apply negb_true_iff in Hc. exact Hc.
  - apply IH; [discriminate | exact Hrest].
Qed.

Lemma trim_space_plain (p w : string) :
  plain w = true -> trim_space (p ++ w) = (p ++ w)%string.
Proof.
  intros H. destruct (plain_inv w H) as (Hne & Hnb & _ & _ & _ & _ & _ & _ & _ & Hlf & Hcr).
  unfold trim_space. rewrite !last_is_app by assumption.
  now rewrite (no_blank_last w Hne Hnb), Hlf, Hcr.
Qed.

Lemma trim_space_newline (p : string) :
  trim_space (p ++ String LF EmptyString) = p.
Proof.
  unfold trim_space, last_is. rewrite last_char_snoc. simpl.
  apply drop_last_snoc.
Qed.

(** One step of [strtok] inside a word. *)
Lemma strtok_inside (c d : ascii) (r : string) :
  Ascii.eqb c SP = false -> Ascii.eqb d SP = false ->
  strtok (String c (String d r)) =
  match strtok (String d r) with
  | t :: ts => String c t :: ts
  | [] => [String c EmptyString]
  end.
Proof.
  intros Hc Hd.
  change (strtok (String c (String d r))) with
    (if Ascii.eqb c SP then strtok (String d r)
     else if Ascii.eqb d SP then String c EmptyString :: strtok (String d r)
          else match strtok (String d r) with
               | t :: ts => String c t :: ts
               | [] => [String c EmptyString]
               end).
  now rewrite Hc, Hd.
Qed.

(** [strtok] on a word followed by a blank, and on a last word. *)
Lemma strtok_word (w rest : string) :
  w <> EmptyString -> no_blank w = true ->
  strtok (w ++ String SP rest) = w :: strtok rest.
Proof.
  induction w as [|c w IH]; [congruence|].
  intros _ H. simpl in H. apply andb_true_iff in H. destruct H as [Hc Hw].
  apply negb_true_iff in Hc.
  destruct w as [|d w].
  - cbn [append strtok]. rewrite Hc. reflexivity.
  - assert (Hd : Ascii.eqb d SP = false).
    { simpl in Hw. apply andb_true_iff in Hw. destruct Hw as [Hd _].
      now apply negb_true_iff in Hd. }
    specialize (IH ltac:(discriminate) Hw).
    change ((String c (String d w) ++ String SP rest)%string)
      with (String c (String d (w ++ String SP rest)%string)).
    rewrite (strtok_inside c d _ Hc Hd).
    change (String d (w ++ String SP rest)%string)
      with ((String d w ++ String SP rest)%string).
    now rewrite IH.
Qed.

Lemma strtok_last_word (w : string) :
  w <> EmptyString -> no_blank w = true -> strtok w = [w].
Proof.
  induction w as [|c w IH]; [congruence|].
  intros _ H. simpl in H. apply andb_true_iff in H. destruct H as [Hc Hw].
  apply negb_true_iff in Hc.
  destruct w as [|d w].
  - simpl. now rewrite Hc.
  - assert (Hd : Ascii.eqb d SP = false).
    { simpl in Hw. apply andb_true_iff in Hw. destruct Hw as [Hd _].
      now apply negb_true_iff in Hd. }
    specialize (IH ltac:(discriminate) Hw).
    rewrite (strtok_inside c d _ Hc Hd). now rewrite IH.
Qed.

Lemma join_cons (w : string) (ws : list string) :
  ws <> [] -> join (w :: ws) = (w ++ String SP (join ws))%string.
Proof. destruct ws; [congruence | reflexivity]. Qed.

Lemma join_app (a b : list string) :
  a <> [] -> b <> [] -> join (a ++ b) = (join a ++ String SP (join b))%string.
Proof.
  intros Ha Hb. induction a as [|w a IH]; [congruence|].
  destruct a as [|w' a].
  - simpl app. now rewrite join_cons.
  - change ((w :: w' :: a) ++ b)%list with (w :: ((w' :: a) ++ b))%list.
    rewrite join_cons by discriminate. rewrite IH by discriminate.
    rewrite (join_cons w) by discriminate.
    now rewrite append_assoc.
Qed.

Lemma ending_snoc (suffix : string) (ws : list string) (w : string) :
  ending suffix (ws ++ [w]) = (ws ++ [(w ++ suffix)%string])%list.
Proof.
  induction ws as [|x ws IH]; [reflexivity|].
  simpl app. simpl. rewrite IH. destruct (ws ++ [w])%list eqn:H; [|reflexivity].
  destruct ws; discriminate.
Qed.

Lemma join_ending (suffix : string) (ws : list string) :
  ws <> [] -> join (ending suffix ws) = (join ws ++ suffix)%string.
Proof.
  intros Hne. destruct (exists_last Hne) as (init & w & ->).
  rewrite ending_snoc. destruct init as [|x init]; [reflexivity|].
  rewrite !join_app by discriminate. simpl join. now rewrite append_assoc.
Qed.

Lemma strtok_join (ws : list string) :
  Forall word ws -> strtok (join ws) = ws.
Proof.
  induction ws as [|w ws IH]; intros H; [reflexivity|].
  inversion H as [|? ? [Hne Hnb] Hws]; subst.
  destruct ws as [|w' ws].
  - now apply strtok_last_word.
  - rewrite join_cons by discriminate.
    rewrite strtok_word by assumption. now rewrite IH.
Qed.

Lemma plain_word (w : string) : plain w = true -> word w.
Proof. intros H. destruct (plain_inv w H) as (? & ? & _). now split. Qed.

Lemma no_blank_app (a b : string) :
  no_blank (a ++ b) = no_blank a && no_blank b.
Proof.
  induction a as [|c a IH]; [reflexivity|]. simpl. rewrite IH. now rewrite andb_assoc.
Qed.

Lemma word_app (w suffix : string) : word w -> no_blank suffix = true -> word (w ++ suffix).
Proof.
  intros [Hne Hnb] Hs. split.
  - destruct w; [congruence | discriminate].
  - now rewrite no_blank_app, Hnb, Hs.
Qed.

Lemma plain_command_inv (ws : list string) :
  plain_command ws = true -> ws <> [] /\ Forall (fun w => plain w = true) ws.
Proof.
  destruct ws as [|w ws]; [discriminate|].
  unfold plain_command. intros H. split; [discriminate|].
  now apply Forall_forall, forallb_forall.
Qed.

Lemma Forall_word_ending (suffix : string) (ws : list string) :
  Forall (fun w => plain w = true) ws -> no_blank suffix = true ->
  Forall word (ending suffix ws).
Proof.
  intros H Hs. induction H as [|w ws Hw Hws IH]; [constructor|].
  destruct ws as [|w' ws].
  - constructor; [|constructor]. apply word_app; [now apply plain_word | exact Hs].
  - change (ending suffix (w :: w' :: ws)) with (w :: ending suffix (w' :: ws)).
    constructor; [now apply plain_word | exact IH].
Qed.

Lemma Forall_word_plain (ws : list string) :
  Forall (fun w => plain w = true) ws -> Forall word ws.
Proof. intros H. eapply Forall_impl; [|exact H]. apply plain_word. Qed.

Lemma trim_space_join (ws : list string) :
  plain_command ws = true -> trim_space (join ws) = join ws.
Proof.
  intros H. destruct (plain_command_inv ws H) as [Hne Hall].
  destruct (exists_last Hne) as (init & w & ->).
  apply Forall_app in Hall. destruct Hall as [_ Hw].
  inversion Hw as [|? ? Hp _]; subst.
  destruct init as [|x init].
  - apply (trim_space_plain EmptyString w Hp).
  - rewrite join_app by discriminate. change (join [w]) with w.
    replace (join (x :: init) ++ String SP w)%string
      with ((join (x :: init) ++ String SP EmptyString) ++ w)%string
      by (rewrite append_assoc; reflexivity).
    now apply trim_space_plain.
Qed.

Lemma grow_some (c : string) (ws : list string) :
  ws <> [] -> grow (Some c) ws = Some (c ++ String SP (join ws))%string.
Proof.
  revert c. induction ws as [|w ws IH]; intros c Hne; [congruence|].
  destruct ws as [|w' ws]; [reflexivity|].
  change (grow (Some c) (w :: w' :: ws))
    with (grow (Some (c ++ " " ++ w)%string) (w' :: ws)).
  rewrite IH by discriminate. rewrite (join_cons w (w' :: ws)) by discriminate.
  f_equal. rewrite !append_assoc. reflexivity.
Qed.

Lemma grow_none (ws : list string) :
  ws <> [] -> grow None ws = Some (join ws).
Proof.
  destruct ws as [|w ws]; [congruence|]. intros _.
  destruct ws as [|w' ws]; [reflexivity|].
  change (grow None (w :: w' :: ws)) with (grow (Some w) (w' :: ws)).
  rewrite grow_some by discriminate. now rewrite (join_cons w (w' :: ws)) by discriminate.
Qed.

(** ** The assembler on plain words *)

Lemma assembly_eta (a : assembly) :
  mk_assembly (commands a) (logical_operator a) (current_command a) = a.
Proof. now destruct a. Qed.

(** A plain word that is not the last token joins the current command. *)
Lemma assemble_plain_step (w : string) (rest : list string) (a : assembly) (s : state) :
  plain w = true -> rest <> [] ->
  assemble (w :: rest) a s =
  assemble rest (mk_assembly (commands a) (logical_operator a) (grow (current_command a) [w])) s.
Proof.
  intros Hp Hrest.
  destruct (plain_inv w Hp) as (_ & _ & H1 & H2 & H3 & H4 & H5 & H6 & H7 & _ & _).
  cbn [assemble]. rewrite H1, H2, H3, H4, H5, H6, H7. cbn [orb].
  destruct rest as [|t rest]; [congruence|]. reflexivity.
Qed.

Lemma assemble_plain_prefix (ws rest : list string) (a : assembly) (s : state) :
  Forall (fun w => plain w = true) ws -> rest <> [] ->
  assemble (ws ++ rest) a s =
  assemble rest (mk_assembly (commands a) (logical_operator a) (grow (current_command a) ws)) s.
Proof.
  intros Hall Hrest. revert a. induction Hall as [|w ws Hw Hws IH]; intros a.
  - simpl. now rewrite assembly_eta.
  - change ((w :: ws) ++ rest)%list with (w :: (ws ++ rest))%list.
    rewrite assemble_plain_step; [| exact Hw | destruct ws; [exact Hrest | discriminate]].
    rewrite IH. reflexivity.
Qed.

(** The tests of the loop on the last word of a line. *)
Lemma last_token_tests (w eol : string) :
  plain w = true -> line_end eol ->
  let t := (w ++ eol)%string in
  String.eqb t "&&" = false /\ String.eqb t "||" = false
  /\ last_is ";"%char t = false
  /\ String.eqb t ">" = false /\ String.eqb t ">>" = false /\ String.eqb t "<" = false
  /\ String.eqb t "&" = false
  /\ forall p : string, trim_space (p ++ t) = (p ++ w)%string.
Proof.
  intros Hp [-> | ->]; cbv zeta.
  - rewrite append_nil_r.
    destruct (plain_inv w Hp) as (_ & _ & H1 & H2 & H3 & H4 & H5 & H6 & H7 & _ & _).
    repeat split; try assumption.
    intros p. now apply trim_space_plain.
  - assert (Hlast : last_is LF (w ++ String LF EmptyString) = true).
    { unfold last_is. rewrite last_char_snoc. reflexivity. }
    repeat split; try (apply (eqb_by_last _ _ LF Hlast); reflexivity).
    + unfold last_is. rewrite last_char_snoc. reflexivity.
    + intros p. rewrite <- append_assoc. apply trim_space_newline.
Qed.

Lemma assemble_last_token (w eol : string) (a : assembly) (s : state) :
  plain w = true -> line_end eol ->
  assemble [(w ++ eol)%string] a s =
  let c := match current_command a with
           | None => w
           | Some text => (text ++ " " ++ w)%string
           end in
  Ret (mk_assembly (commands a ++ [c]) (logical_operator a) (Some c)) s.
Proof.
  intros Hp Heol.
  destruct (last_token_tests w eol Hp Heol) as (H1 & H2 & H3 & H4 & H5 & H6 & H7 & Htrim).
  cbn [assemble]. rewrite H1, H2, H3, H4, H5, H6, H7. cbn [orb]. cbv zeta.
  destruct (current_command a) as [text|].
  - replace (text ++ " " ++ w ++ eol)%string with ((text ++ " ") ++ w ++ eol)%string
      by (now rewrite append_assoc).
    rewrite Htrim. now rewrite append_assoc.
  - pose proof (Htrim EmptyString) as H0. cbn [append] in H0. now rewrite H0.
Qed.

(** A command of plain words that ends the line becomes one entry of
    [commands]. *)
Lemma assemble_last_command (ws : list string) (eol : string)
      (cs : list string) (op : option string) (s : state) :
  plain_command ws = true -> line_end eol ->
  assemble (ending eol ws) (mk_assembly cs op None) s =
  Ret (mk_assembly (cs ++ [join ws]) op (Some (join ws))) s.
Proof.
  intros H Heol. destruct (plain_command_inv ws H) as [Hne Hall].
  destruct (exists_last Hne) as (init & w & ->).
  apply Forall_app in Hall. destruct Hall as [Hinit Hw].
  inversion Hw as [|? ? Hp _]; subst.
  rewrite ending_snoc, assemble_plain_prefix by (assumption || discriminate).
  rewrite assemble_last_token by assumption. cbn [commands logical_operator current_command].
  destruct init as [|x init].
  - reflexivity.
  - rewrite grow_none by discriminate. cbv zeta.
    rewrite join_app by discriminate. reflexivity.
Qed.

(** A command of plain words whose last word carries the [;]. *)
Lemma assemble_semicolon_command (ws rest : list string)
      (cs : list string) (op : option string) (s : state) :
  plain_command ws = true ->
  assemble (ending ";" ws ++ rest) (mk_assembly cs op None) s =
  assemble rest (mk_assembly (cs ++ [join ws]) (Some ";") None) s.
Proof.
  intros H. destruct (plain_command_inv ws H) as [Hne Hall].
  destruct (exists_last Hne) as (init & w & ->).
  apply Forall_app in Hall. destruct Hall as [Hinit Hw].
  inversion Hw as [|? ? Hp _]; subst.
  rewrite ending_snoc, <- app_assoc.
  rewrite assemble_plain_prefix by (assumption || discriminate).
  cbn [commands logical_operator current_command app].
  assert (Hlast : last_is ";"%char (w ++ ";") = true).
  { unfold last_is. rewrite last_char_snoc. reflexivity. }
  cbn [assemble].
  rewrite (eqb_by_last _ "&&" ";"%char Hlast eq_refl),
          (eqb_by_last _ "||" ";"%char Hlast eq_refl), Hlast.
  cbn [orb]. rewrite drop_last_snoc.
  destruct init as [|x init].
  - cbn [grow fold_left commands logical_operator current_command].
    pose proof (trim_space_plain EmptyString w Hp) as H0.
    cbn [append] in H0. now rewrite H0.
  - rewrite grow_none by discriminate.
    cbn [commands logical_operator current_command].
    replace (join (x :: init) ++ " " ++ w)%string
      with ((join (x :: init) ++ " ") ++ w)%string by (now rewrite append_assoc).
    rewrite trim_space_plain by assumption.
    rewrite join_app by discriminate. now rewrite append_assoc.
Qed.

(** [&&] and [||] close the current command and become the operator. *)
Lemma assemble_operator (op : string) (rest : list string)
      (cs : list string) (old : option string) (c : string) (s : state) :
  op = "&&" \/ op = "||" ->
  assemble (op :: rest) (mk_assembly cs old (Some c)) s =
  assemble rest (mk_assembly (cs ++ [trim_space c]) (Some op) None) s.
Proof. intros [-> | ->]; reflexivity. Qed.

(** ** A redirection operator at the end of the line *)

Lemma execute_command_assemble_fault (E : env) (fuel : nat) (line : string) (s s' : state) :
  assemble (strtok line) empty_assembly s = Fault s' ->
  execute_command E (S fuel) (Line line) s = Fault s'.
Proof.
  intros H. cbn [execute_command]. unfold bind at 1. cbn [deref]. unfold ret.
  now apply bind_Fault.
Qed.

(** C3, on the code: a command of plain words followed by [>], [>>] or
    [<] as the last token makes the assembler pass the null pointer of
    the missing path to [trim_space]; the line ends in a fault with the
    state untouched: nothing is reported and nothing is returned. *)
Theorem redirection_without_path (E : env) (fuel : nat) (ws : list string)
        (r : string) (s : state) :
  plain_command ws = true ->
  In r [">"; ">>"; "<"] ->
  execute_command E (S fuel) (Line (join ws ++ " " ++ r)) s = Fault s.
Proof.
  intros H Hr. destruct (plain_command_inv ws H) as [Hne Hall].
  apply execute_command_assemble_fault.
  assert (Hword : word r).
  { simpl in Hr. destruct Hr as [<-|[<-|[<-|[]]]]; split; (discriminate || reflexivity). }
  replace (join ws ++ " " ++ r)%string with (join (ws ++ [r])).
  2:{ rewrite join_app by (assumption || discriminate). reflexivity. }
  rewrite strtok_join.
  2:{ apply Forall_app. split; [now apply Forall_word_plain | now constructor]. }
  rewrite assemble_plain_prefix by (assumption || discriminate).
  simpl in Hr. destruct Hr as [<-|[<-|[<-|[]]]]; reflexivity.
Qed.

Lemma redirection_without_path_witness :
  execute_command Demo.E 3 (Line "ls -l >") Demo.s0 = Fault Demo.s0.
Proof.
  apply (redirection_without_path Demo.E 2 ["ls"; "-l"] ">" Demo.s0).
  - reflexivity.
  - simpl. tauto.
Defined.

(** With the newline still on the line the operator is not recognised:
    [>] and the newline form an ordinary last word, and the command
    runs with [>] as an argument. *)
Example redirection_before_newline :
  exists s' : state,
    execute_command Demo.E 3 (Line ("echo hi >" ++ Demo.nl)) Demo.s0 = Ret tt s'
    /\ log (os s') = [print_command_executed 100; program_output ("hi >" ++ Demo.nl)]
    /\ files (os s') = [].
Proof. eexists. split; [vm_compute; reflexivity|]. split; reflexivity. Qed.

(** ** The operator of a line *)

Lemma last_of_some (l : list string) (x : string) :
  exists y : string, last (map Some (x :: l)) None = Some y.
Proof.
  revert x. induction l as [|z l IH]; intros x; [now exists x|].
  destruct (IH z) as (y & Hy). exists y. exact Hy.
Qed.

Lemma last_operator_cons_some (token op : string) (rest : list string) :
  operator_of token = Some op ->
  last_operator (token :: rest)
  = match last_operator rest with
    | Some later => Some later
    | None => Some op
    end.
Proof.
  intros H. unfold last_operator. cbn [operators]. rewrite H.
  destruct (operators rest) as [|o os]; [reflexivity|].
  destruct (last_of_some os o) as (y & Hy).
  change (last (map Some (op :: o :: os)) None) with (last (map Some (o :: os)) None).
  now rewrite Hy.
Qed.

Lemma last_operator_cons_none (token : string) (rest : list string) :
  operator_of token = None -> last_operator (token :: rest) = last_operator rest.
Proof. intros H. unfold last_operator. cbn [operators]. now rewrite H. Qed.

(** The operator the loop ends with: the last one among the tokens it
    went over, or the one it started with. *)
Lemma assemble_operator_tag (tokens : list string) (a a' : assembly) (s s' : state) :
  assemble tokens a s = Ret a' s' ->
  logical_operator a'
  = match last_operator (scanned tokens) with
    | Some op => Some op
    | None => logical_operator a
    end.
Proof.
  revert a s. induction tokens as [|token rest IH]; intros a s Hrun.
  - cbn in Hrun. injection Hrun as <- _. reflexivity.
  - cbn [assemble] in Hrun. cbn [scanned]. unfold operator_of, is_redirection.
    destruct (String.eqb token "&&" || String.eqb token "||") eqn:Hop.
    { rewrite (last_operator_cons_some token token) by (unfold operator_of; now rewrite Hop).
      destruct (current_command a); apply IH in Hrun; rewrite Hrun; cbn [logical_operator];
        destruct (last_operator (scanned rest)); reflexivity. }
    destruct (last_is ";"%char token) eqn:Hsemi.
    { rewrite (last_operator_cons_some token ";")
        by (unfold operator_of; now rewrite Hop, Hsemi).
      destruct (current_command a); apply IH in Hrun; rewrite Hrun; cbn [logical_operator];
        destruct (last_operator (scanned rest)); reflexivity. }
    assert (Hpush : forall (f : process -> process) (c : option string),
               bind (modify (set_process f)) (fun _ => push_command c a) s = Ret a' s' ->
               logical_operator a' = logical_operator a).
    { intros f c Hb. unfold bind, modify, push_command in Hb.
      destruct c; [|discriminate]. unfold ret in Hb. injection Hb as <- _. reflexivity. }
    destruct (String.eqb token ">") eqn:H1.
    { cbn [orb]. destruct rest; [discriminate|]. now apply Hpush in Hrun. }
    destruct (String.eqb token ">>") eqn:H2.
    { cbn [orb]. destruct rest; [discriminate|]. now apply Hpush in Hrun. }
    destruct (String.eqb token "<") eqn:H3.
    { cbn [orb]. destruct rest; [discriminate|]. now apply Hpush in Hrun. }
    cbn [orb].
    rewrite last_operator_cons_none by (unfold operator_of; now rewrite Hop, Hsemi).
    destruct (String.eqb token "&").
    { destruct (current_command a); [|discriminate]. apply IH in Hrun. exact Hrun. }
    destruct rest as [|t rest].
    + unfold ret in Hrun. injection Hrun as <- _. reflexivity.
    + apply IH in Hrun. exact Hrun.
Qed.

(** C1, as the code has it: when the assembly of a line completes, the
    operator tag of the line is the LAST logical operator among the
    tokens the loop went over, those before the first redirection
    operator; a later operator replaces an earlier one. *)
Theorem last_operator_wins (line : string) (a : assembly) (s s' : state) :
  assemble (strtok line) empty_assembly s = Ret a s' ->
  logical_operator a = last_operator (scanned (strtok line)).
Proof.
  intros H. rewrite (assemble_operator_tag _ _ _ _ _ H).
  now destruct (last_operator (scanned (strtok line))).
Qed.

Lemma last_operator_wins_witness :
  logical_operator (mk_assembly ["a"; "b"; "c"] (Some "||") (Some "c"))
  = last_operator (scanned (strtok "a && b || c")).
Proof.
  apply (last_operator_wins "a && b || c" _ Demo.s0 Demo.s0). reflexivity.
Defined.

(** C1, as stated, fails: [a && b || c] has two operators, and the tag
    of the line is not the first of them. *)
Lemma first_operator_is_replaced :
  ~ ((1 < List.length (operators (strtok "a && b || c")))%nat ->
     forall (a : assembly) (s' : state),
       assemble (strtok "a && b || c") empty_assembly Demo.s0 = Ret a s' ->
       logical_operator a = first_operator (strtok "a && b || c")).
Proof.
  intros H.
  specialize (H ltac:(simpl; lia) _ _ eq_refl). discriminate H.
Qed.

(** The line runs as [true || echo x]: nothing is echoed. *)
Example last_operator_decides :
  exists s' : state,
    execute_command Demo.E 3 (Line "true && echo x || echo y") Demo.s0 = Ret tt s'
    /\ log (os s') = [print_command_executed 100; program_output EmptyString].
Proof. eexists. split; [vm_compute; reflexivity | reflexivity]. Qed.

(** ** Two commands and one operator *)

Lemma no_blank_line_end (eol : string) : line_end eol -> no_blank eol = true.
Proof. intros [-> | ->]; reflexivity. Qed.

(** The tokens of the line and what the loop makes of them. *)
Lemma assemble_pair (op : string) (cmd1 cmd2 : list string) (eol : string) (s : state) :
  plain_command cmd1 = true -> plain_command cmd2 = true -> line_end eol ->
  In op ["&&"; "||"; ";"] ->
  assemble (strtok (pair_line op cmd1 cmd2 eol)) empty_assembly s
  = Ret (mk_assembly [join cmd1; join cmd2] (Some op) (Some (join cmd2))) s.
Proof.
  intros H1 H2 Heol Hop.
  destruct (plain_command_inv cmd1 H1) as [Hne1 Hall1].
  destruct (plain_command_inv cmd2 H2) as [Hne2 Hall2].
  assert (Hend2 : ending eol cmd2 <> []).
  { destruct cmd2 as [|x [|y r]]; [congruence | discriminate | discriminate]. }
  assert (Hw2 : Forall word (ending eol cmd2)).
  { apply Forall_word_ending; [assumption | now apply no_blank_line_end]. }
  assert (Hamp : op = ";" \/ (op = "&&" \/ op = "||")).
  { simpl in Hop. destruct Hop as [<-|[<-|[<-|[]]]]; auto. }
  destruct Hamp as [-> | Hop'].
  - unfold pair_line. cbn [String.eqb Ascii.eqb Bool.eqb].
    assert (Hend1 : ending ";" cmd1 <> []).
    { destruct cmd1 as [|x [|y r]]; [congruence | discriminate | discriminate]. }
    replace (join cmd1 ++ "; " ++ join cmd2 ++ eol)%string
      with (join (ending ";" cmd1 ++ ending eol cmd2)).
    2:{ rewrite join_app, !join_ending by assumption.
        rewrite append_assoc. reflexivity. }
    rewrite strtok_join.
    2:{ apply Forall_app. split; [|assumption].
        apply Forall_word_ending; [assumption | reflexivity]. }
    unfold empty_assembly.
    rewrite assemble_semicolon_command by assumption.
    now rewrite assemble_last_command by assumption.
  - assert (Hpl : pair_line op cmd1 cmd2 eol
                  = (join cmd1 ++ " " ++ op ++ " " ++ join cmd2 ++ eol)%string).
    { destruct Hop' as [-> | ->]; reflexivity. }
    rewrite Hpl.
    replace (join cmd1 ++ " " ++ op ++ " " ++ join cmd2 ++ eol)%string
      with (join (cmd1 ++ op :: ending eol cmd2)).
    2:{ rewrite join_app by (assumption || discriminate).
        rewrite join_cons by assumption. rewrite join_ending by assumption.
        reflexivity. }
    rewrite strtok_join.
    2:{ apply Forall_app. split; [now apply Forall_word_plain|].
        constructor; [|assumption].
        destruct Hop' as [-> | ->]; split; (discriminate || reflexivity). }
    rewrite assemble_plain_prefix by (assumption || discriminate).
    unfold empty_assembly. cbn [commands logical_operator current_command].
    rewrite grow_none by assumption.
    rewrite assemble_operator by assumption.
    rewrite trim_space_join by assumption.
    now rewrite assemble_last_command by assumption.
Qed.

(** [execute_command] on a pair is the pair of the specification,
    followed by the entry in the history. *)
Lemma execute_command_pair (E : env) (fuel : nat) (op : string)
      (cmd1 cmd2 : list string) (eol : string) (s : state) :
  plain_command cmd1 = true -> plain_command cmd2 = true -> line_end eol ->
  In op ["&&"; "||"; ";"] ->
  execute_command E (S fuel) (Line (pair_line op cmd1 cmd2 eol)) s
  = bind (run_pair (dispatch E (execute_command E fuel)) op (join cmd1) (join cmd2))
         (fun _ => save_command E (Line (pair_line op cmd1 cmd2 eol))) s.
Proof.
  intros H1 H2 Heol Hop.
  cbn [execute_command]. unfold bind at 1. cbn [deref]. unfold ret at 1.
  unfold bind at 1. rewrite (assemble_pair op cmd1 cmd2 eol s H1 H2 Heol Hop).
  cbn [logical_operator commands].
  set (run := dispatch E (execute_command E fuel)).
  set (save := save_command E (Line (pair_line op cmd1 cmd2 eol))).
  unfold run_pair, runs_second.
  simpl in Hop. destruct Hop as [<-|[<-|[<-|[]]]];
    cbn [String.eqb Ascii.eqb Bool.eqb];
    unfold bind, vector_get, ret; cbn [nth_error];
    destruct (run (join cmd1) s) as [status s1| | | |]; try reflexivity;
    try (destruct (status =? 0); cbn [negb]; try reflexivity);
    destruct (run (join cmd2) s1); reflexivity.
Qed.

(** C2: on a line [cmd1 OP cmd2] of plain words, with or without its
    newline, once the dispatch of [cmd1] has returned a status: with
    [&&] the second command is dispatched exactly when the status is 0,
    with [||] exactly when it is not 0, and with [;] always; when it is
    not dispatched, nothing but the entry in the history follows. *)
Theorem logical_operator_short_circuit (E : env) (fuel : nat) (op : string)
        (cmd1 cmd2 : list string) (eol : string) (status : Z) (s s1 : state) :
  plain_command cmd1 = true -> plain_command cmd2 = true -> line_end eol ->
  In op ["&&"; "||"; ";"] ->
  dispatch E (execute_command E fuel) (join cmd1) s = Ret status s1 ->
  let second_runs :=
    if String.eqb op "&&" then status =? 0
    else if String.eqb op "||" then negb (status =? 0)
    else true in
  execute_command E (S fuel) (Line (pair_line op cmd1 cmd2 eol)) s
  = if second_runs
    then bind (dispatch E (execute_command E fuel) (join cmd2))
              (fun _ => save_command E (Line (pair_line op cmd1 cmd2 eol))) s1
    else save_command E (Line (pair_line op cmd1 cmd2 eol)) s1.
Proof.
  intros H1 H2 Heol Hop Hfirst. cbv zeta.
  rewrite (execute_command_pair E fuel op cmd1 cmd2 eol s H1 H2 Heol Hop).
  unfold run_pair. rewrite bind_assoc. rewrite (bind_Ret _ _ _ _ _ Hfirst).
  unfold runs_second.
  destruct (if String.eqb op "&&" then status =? 0
            else if String.eqb op "||" then negb (status =? 0) else true).
  - rewrite bind_assoc. unfold bind, ret.
    destruct (dispatch E (execute_command E fuel) (join cmd2) s1); reflexivity.
  - reflexivity.
Qed.

Lemma logical_operator_short_circuit_witness :
  execute_command Demo.E 3 (Line (pair_line "&&" ["false"] ["echo"; "x"] Demo.nl)) Demo.s0
  = save_command Demo.E (Line (pair_line "&&" ["false"] ["echo"; "x"] Demo.nl))
      (set_world (fun w => add_log (program_output EmptyString)
                             (add_log (print_command_executed 100) (count_fork w))) Demo.s0).
Proof.
  apply (logical_operator_short_circuit Demo.E 2 "&&" ["false"] ["echo"; "x"] Demo.nl 1
           Demo.s0 _).
  - reflexivity.
  - reflexivity.
  - right. reflexivity.
  - simpl. tauto.
  - reflexivity.
Defined.

Example and_runs_second_after_success :
  exists s' : state,
    execute_command Demo.E 3 (Line "true && echo x") Demo.s0 = Ret tt s'
    /\ log (os s') = [print_command_executed 100; program_output EmptyString;
                      print_command_executed 101; program_output ("x" ++ Demo.nl)]
    /\ previous_commands (current_process s') = ["true && echo x"].
Proof. eexists. split; [vm_compute; reflexivity|]. split; reflexivity. Qed.

Example or_skips_second_after_success :
  exists s' : state,
    execute_command Demo.E 3 (Line "true || echo x") Demo.s0 = Ret tt s'
    /\ log (os s') = [print_command_executed 100; program_output EmptyString].
Proof. eexists. split; [vm_compute; reflexivity | reflexivity]. Qed.

Example semicolon_runs_both :
  exists s' : state,
    execute_command Demo.E 3 (Line "false; echo x") Demo.s0 = Ret tt s'
    /\ log (os s') = [print_command_executed 100; program_output EmptyString;
                      print_command_executed 101; program_output ("x" ++ Demo.nl)].
Proof. eexists. split; [vm_compute; reflexivity | reflexivity]. Qed.

(** ** [#<n>] typed as a decimal number *)

Example decimal_ex : decimal 0 = "0" /\ decimal 42 = "42" /\ decimal (-2147483648) = "-2147483648".
Proof. repeat split; reflexivity. Qed.

Lemma digit_char_spec (d : Z) :
  0 <= d < 10 -> isdigit (digit_char d) = true /\ digit_value (digit_char d) = d.
Proof.
  intros H.
  assert (Hd : d = 0 \/ d = 1 \/ d = 2 \/ d = 3 \/ d = 4 \/ d = 5 \/ d = 6 \/ d = 7
               \/ d = 8 \/ d = 9) by lia.
  repeat (destruct Hd as [-> | Hd]; [split; reflexivity|]).
  subst d. split; reflexivity.
Qed.

Lemma digits_snoc (s : string) (c : ascii) (acc : Z) :
  all_digits s = true -> isdigit c = true ->
  digits acc (s ++ String c EmptyString) = 10 * digits acc s + digit_value c.
Proof.
  revert acc. induction s as [|x s IH]; intros acc Hs Hc.
  - simpl. now rewrite Hc.
  - simpl in Hs. apply andb_true_iff in Hs. destruct Hs as [Hx Hs].
    simpl. rewrite Hx. now apply IH.
Qed.

Lemma all_digits_snoc (s : string) (c : ascii) :
  all_digits s = true -> isdigit c = true -> all_digits (s ++ String c EmptyString) = true.
Proof.
  intros Hs Hc. induction s as [|x s IH]; simpl.
  - now rewrite Hc.
  - simpl in Hs. apply andb_true_iff in Hs. destruct Hs as [Hx Hs].
    rewrite Hx. now apply IH.
Qed.

Lemma decimal_digits_small (fuel : nat) (n : Z) :
  0 <= n < 10 ->
  all_digits (decimal_digits (S fuel) n) = true
  /\ decimal_digits (S fuel) n <> EmptyString
  /\ digits 0 (decimal_digits (S fuel) n) = n.
Proof.
  intros Hn.
  destruct (digit_char_spec n Hn) as [Hdig Hval].
  cbn [decimal_digits].
  destruct (Z.ltb_spec n 10) as [_ | Hge]; [|lia].
  rewrite Z.mod_small by lia. cbn [append all_digits digits].
  rewrite Hdig, Hval. split; [reflexivity|]. split; [discriminate | lia].
Qed.

Lemma decimal_digits_spec (fuel : nat) (n : Z) :
  0 <= n < 10 ^ Z.of_nat (S fuel) ->
  all_digits (decimal_digits (S fuel) n) = true
  /\ decimal_digits (S fuel) n <> EmptyString
  /\ digits 0 (decimal_digits (S fuel) n) = n.
Proof.
  revert n. induction fuel as [|fuel IH]; intros n Hn.
  - apply decimal_digits_small. change (10 ^ Z.of_nat 1) with 10 in Hn. exact Hn.
  - destruct (Z.ltb_spec n 10) as [Hlt | Hge].
    + apply decimal_digits_small. lia.
    + assert (Hmod : 0 <= n mod 10 < 10) by (apply Z.mod_pos_bound; lia).
      destruct (digit_char_spec (n mod 10) Hmod) as [Hdig Hval].
      assert (Hdiv : 0 <= n / 10 < 10 ^ Z.of_nat (S fuel)).
      { split; [apply Z.div_pos; lia|].
        apply Z.div_lt_upper_bound; [lia|].
        replace (Z.of_nat (S (S fuel))) with (Z.of_nat (S fuel) + 1) in Hn by lia.
        rewrite Z.pow_add_r in Hn by lia. lia. }
      destruct (IH (n / 10) Hdiv) as (Hall & Hne & Hdigits).
      assert (Hunfold : decimal_digits (S (S fuel)) n
                        = (decimal_digits (S fuel) (n / 10)
                           ++ String (digit_char (n mod 10)) EmptyString)%string).
      { change (decimal_digits (S (S fuel)) n)
          with (String.append
                  (if n <? 10 then EmptyString else decimal_digits (S fuel) (n / 10))
                  (String (digit_char (n mod 10)) EmptyString)).
        apply Z.ltb_ge in Hge. now rewrite Hge. }
      rewrite Hunfold. repeat split.
      * now apply all_digits_snoc.
      * destruct (decimal_digits (S fuel) (n / 10)); [congruence | discriminate].
      * rewrite digits_snoc by assumption. rewrite Hdigits, Hval.
        symmetry. apply Z_div_mod_eq_full.
Qed.

Lemma isdigit_plain (c : ascii) :
  isdigit c = true ->
  isspace c = false /\ Ascii.eqb c "-"%char = false /\ Ascii.eqb c "+"%char = false
  /\ Ascii.eqb c SP = false.
Proof.
  destruct c as [[] [] [] [] [] [] [] []]; intros H; try discriminate H;
    repeat split; reflexivity.
Qed.

Lemma strtol_digits (s : string) :
  all_digits s = true -> s <> EmptyString -> strtol s = saturate (digits 0 s).
Proof.
  intros Hall Hne. destruct s as [|c r]; [congruence|].
  simpl in Hall. apply andb_true_iff in Hall. destruct Hall as [Hc _].
  destruct (isdigit_plain c Hc) as (Hsp & Hm & Hp & _).
  unfold strtol. cbn [skip_spaces]. now rewrite Hsp, Hm, Hp.
Qed.

(** [atoi] reads back the decimal text of an [int]. *)
Lemma atoi_decimal (n : Z) : INT_MIN <= n <= INT_MAX -> atoi (decimal n) = n.
Proof.
  unfold INT_MIN, INT_MAX. intros Hn.
  assert (Hint : to_int n = n).
  { unfold to_int. rewrite Z.mod_small; lia. }
  assert (Hsat : saturate n = n).
  { unfold saturate, LONG_MIN, LONG_MAX. lia. }
  unfold atoi, decimal. destruct (Z.ltb_spec n 0) as [Hneg | Hpos].
  - destruct (decimal_digits_spec 19 (- n)) as (Hall & Hne & Hdigits).
    { change (10 ^ Z.of_nat 20) with 100000000000000000000. lia. }
    change (strtol (String "-" (decimal_digits 20 (- n))))
      with (saturate (- digits 0 (decimal_digits 20 (- n)))).
    rewrite Hdigits. replace (- - n) with n by lia. now rewrite Hsat.
  - destruct (decimal_digits_spec 19 n) as (Hall & Hne & Hdigits).
    { change (10 ^ Z.of_nat 20) with 100000000000000000000. lia. }
    rewrite strtol_digits by assumption. now rewrite Hdigits, Hsat.
Qed.

Lemma no_blank_digits (s : string) : all_digits s = true -> no_blank s = true.
Proof.
  induction s as [|c r IH]; [reflexivity|]. simpl. intros H.
  apply andb_true_iff in H. destruct H as [Hc Hr].
  destruct (isdigit_plain c Hc) as (_ & _ & _ & Hsp). now rewrite Hsp, IH.
Qed.

(** The built-in [#<n>], typed with the decimal text of an [int], is
    [execute_n] at [n]. *)
Lemma builtin_hash_decimal (E : env) (rec : cmdref -> M unit) (n : Z) (s : state) :
  INT_MIN <= n <= INT_MAX ->
  execute_builtin_command E rec (String "#" (decimal n)) s = execute_n rec n s.
Proof.
  intros Hn.
  rewrite (builtin_hash E rec (String "#" (decimal n)) (decimal n) [] s).
  - now rewrite atoi_decimal.
  - apply strtok_last_word; [discriminate|].
    cbn [no_blank]. cbn [Ascii.eqb Bool.eqb negb andb].
    unfold decimal, INT_MIN, INT_MAX in *. destruct (Z.ltb_spec n 0).
    + destruct (decimal_digits_spec 19 (- n)) as (Hall & _ & _).
      { change (10 ^ Z.of_nat 20) with 100000000000000000000. lia. }
      cbn [no_blank]. cbn [Ascii.eqb Bool.eqb negb andb]. now apply no_blank_digits.
    + destruct (decimal_digits_spec 19 n) as (Hall & _ & _).
      { change (10 ^ Z.of_nat 20) with 100000000000000000000. lia. }
      now apply no_blank_digits.
Qed.

(** C8, as the code has it: [execute_n] takes a C [int]. For every
    [n] in the range of [int], typed in decimal after the [#]: when [n]
    is outside [0, length of the history) the built-in reports the
    invalid index, returns 1 and calls nothing back, whatever the
    callback is; when [n] is inside the range it prints the stored
    entry and runs it through [execute_command], the whole pipeline,
    from the history buffer itself. *)
Theorem hash_builtin_range (E : env) (fuel : nat) (n : Z) (s : state) :
  INT_MIN <= n <= INT_MAX ->
  (n < 0 \/ Z.of_nat (List.length (previous_commands (current_process s))) <= n ->
   forall rec : cmdref -> M unit,
     execute_builtin_command E rec (String "#" (decimal n)) s
     = Ret 1 (set_world (add_log print_invalid_index) s))
  /\
  (0 <= n < Z.of_nat (List.length (previous_commands (current_process s))) ->
   exists entry : string,
     nth_error (previous_commands (current_process s)) (Z.to_nat n) = Some entry
     /\ execute_builtin_command E (execute_command E fuel) (String "#" (decimal n)) s =
        bind (execute_command E fuel (Hist (Z.to_nat n))) (fun _ => ret 0)
             (set_world (add_log (print_command entry)) s)).
Proof.
  intros Hint. split.
  - intros H rec. rewrite builtin_hash_decimal by exact Hint.
    now apply execute_n_invalid.
  - intros [H0 Hlt]. rewrite builtin_hash_decimal by exact Hint.
    destruct (nth_error (previous_commands (current_process s)) (Z.to_nat n))
      as [entry|] eqn:Hnth.
    + exists entry. split; [reflexivity | now apply execute_n_valid].
    + apply nth_error_None in Hnth. lia.
Qed.

Lemma hash_builtin_range_witness :
  execute_builtin_command Demo.E (execute_command Demo.E 3) "#7" Demo.s_hist
  = Ret 1 (set_world (add_log print_invalid_index) Demo.s_hist)
  /\ execute_builtin_command Demo.E (execute_command Demo.E 3) "#-1" Demo.s_hist
     = Ret 1 (set_world (add_log print_invalid_index) Demo.s_hist)
  /\ exists entry : string,
       nth_error (previous_commands (current_process Demo.s_hist)) (Z.to_nat 1) = Some entry
       /\ execute_builtin_command Demo.E (execute_command Demo.E 3) "#1" Demo.s_hist =
          bind (execute_command Demo.E 3 (Hist (Z.to_nat 1))) (fun _ => ret 0)
               (set_world (add_log (print_command entry)) Demo.s_hist).
Proof.
  assert (Hint : forall n, -1 <= n <= 7 -> INT_MIN <= n <= INT_MAX).
  { unfold INT_MIN, INT_MAX. lia. }
  split; [|split].
  - apply (proj1 (hash_builtin_range Demo.E 3 7 Demo.s_hist (Hint 7 ltac:(lia)))).
    right. simpl. lia.
  - apply (proj1 (hash_builtin_range Demo.E 3 (-1) Demo.s_hist (Hint (-1) ltac:(lia)))).
    left. lia.
  - apply (proj2 (hash_builtin_range Demo.E 3 1 Demo.s_hist (Hint 1 ltac:(lia)))).
    simpl. lia.
Defined.

(** C8, as stated for every integer, fails: 4294967297 is outside
    [0, 2), but [atoi] keeps the low 32 bits of what [strtol] reads,
    which is 1, so that [#4294967297] on a history of two entries
    reports no invalid index: it prints the entry at index 1, runs it
    again and returns 0. *)
Lemma hash_beyond_int_runs_entry :
  Z.of_nat (List.length (previous_commands (current_process Demo.s_hist))) <= 4294967297
  /\ atoi "4294967297" = 1
  /\ exists s' : state,
       execute_builtin_command Demo.E (execute_command Demo.E 3) "#4294967297" Demo.s_hist
       = Ret 0 s'
       /\ log (os s') = [print_command "echo b"; print_command_executed 100;
                         program_output ("b" ++ Demo.nl)]
       /\ ~ In print_invalid_index (log (os s')).
Proof.
  split; [simpl; lia|]. split; [reflexivity|].
  eexists. split; [vm_compute; reflexivity|]. split; [reflexivity|].
  vm_compute. intros [H|[H|[H|[]]]]; discriminate.
Qed.

Example hash_out_of_range :
  execute_command Demo.E 3 (Line "#2") Demo.s_hist
  = Ret tt (set_world (add_log print_invalid_index) Demo.s_hist)
  /\ execute_command Demo.E 3 (Line "#-1") Demo.s_hist
     = Ret tt (set_world (add_log print_invalid_index) Demo.s_hist).
Proof. split; reflexivity. Qed.

(** ** Re-entry without end

    A line with an operator is always recorded, also when its first
    command is [#<n>]; once such a line sits at the position it names,
    running it never returns.  This is what the fuel of the model
    stands for. *)

Lemma self_reference_diverges (E : env) (fuel : nat) (s : state) :
  hd_error (previous_commands (current_process s)) = Some "#0 && ls" ->
  execute_command E fuel (Hist 0) s = OutOfFuel.
Proof.
  revert s. induction fuel as [|fuel IH]; intros s Hhd; [reflexivity|].
  destruct (previous_commands (current_process s)) as [|e h] eqn:Hh; [discriminate|].
  injection Hhd as ->.
  cbn [execute_command]. unfold bind at 1. unfold deref, bind at 1, get, vector_get.
  rewrite Hh. cbn [nth_error]. unfold ret at 1.
  unfold bind at 1.
  change (assemble (strtok "#0 && ls") empty_assembly s)
    with (Ret (mk_assembly ["#0"; "ls"] (Some "&&") (Some "ls")) s).
  cbn [logical_operator commands String.eqb Ascii.eqb Bool.eqb].
  unfold bind at 1. unfold bind at 1. unfold bind at 1.
  cbn [vector_get nth_error]. unfold ret at 1.
  unfold bind at 1. unfold dispatch at 1. unfold bind at 1.
  change (is_builtin_command "#0" s) with (Ret true s). cbv iota beta.
  rewrite (builtin_hash E (execute_command E fuel) "#0" "0" [] s eq_refl).
  change (atoi "0") with 0.
  rewrite (execute_n_valid (execute_command E fuel) 0 s "#0 && ls");
    [| lia | now rewrite Hh].
  unfold bind at 1. change (Z.to_nat 0) with 0%nat.
  rewrite IH; [reflexivity|].
  unfold set_world. cbn [current_process]. now rewrite Hh.
Qed.

Example self_reference_first_step :
  execute_command Demo.E 50 (Line "#0") Demo.s_loop = OutOfFuel.
Proof. vm_compute. reflexivity. Qed.

(** ** Signals that reach the shell *)

(** [kill] with the shell's own pid, or with a text that [atoi] reads
    as 0, the shell's process group, ends the shell. *)
Example kill_self :
  execute_command Demo.E 3 (Line "kill 1") Demo.s0 = Killed Demo.s0
  /\ execute_command Demo.E 3 (Line "kill abc") Demo.s0 = Killed Demo.s0.
Proof. split; reflexivity. Qed.

(** A job that exists is signalled and the message says so; the status
    is 0 here too. *)
Example stop_existing_job :
  execute_builtin_command Demo.E (execute_command Demo.E 3) "stop 100" Demo.s_jobs
  = Ret 0 (set_world (fun w => add_log (print_stopped_process 100 "command")
                                 (set_procs [(100, Stopped)] w)) Demo.s_jobs).
Proof. reflexivity. Qed.

(** [exit] signals every tracked job, reports each result, and leaves. *)
Example exit_kills_jobs :
  execute_command Demo.E 3 (Line "exit") Demo.s_jobs
  = Exited 0 (set_world (fun w => add_logs [print_killed_process 100 "command";
                                            print_no_process_found 101]
                                    (set_procs [(100, Zombie)] w)) Demo.s_jobs).
Proof. reflexivity. Qed.

(** * Further properties of the code *)

(** ** Tokens and trimming *)

Lemma strtok_words (s : string) : Forall word (strtok s).
Proof.
  induction s as [|c r IH]; [constructor|].
  cbn [strtok].
  destruct (Ascii.eqb c SP) eqn:Hc; [exact IH|].
  assert (Hone : word (String c EmptyString)).
  { split; [discriminate|]. cbn [no_blank]. now rewrite Hc. }
  destruct r as [|d r']; [constructor; [exact Hone | constructor]|].
  destruct (Ascii.eqb d SP); [now constructor|].
  destruct (strtok (String d r')) as [|t ts]; [constructor; [exact Hone | constructor]|].
  inversion IH as [|? ? [Ht Hnb] Hts]; subst.
  constructor; [|exact Hts].
  split; [discriminate|]. cbn [no_blank]. now rewrite Hc, Hnb.
Qed.

(** X1: whatever the line, every token the loop sees is non-empty and
    free of blanks, and joining the tokens with single blanks gives a
    line with the same tokens: runs of blanks, leading and trailing
    blanks make no difference to what is assembled. *)
Theorem tokens_normal_form (line : string) :
  Forall word (strtok line) /\ strtok (join (strtok line)) = strtok line.
Proof.
  split; [apply strtok_words | apply strtok_join, strtok_words].
Qed.

Lemma drop_last_last (s : string) (c : ascii) :
  last_char s = Some c -> s = (drop_last s ++ String c EmptyString)%string.
Proof.
  induction s as [|x s IH]; [discriminate|].
  destruct s as [|y s'].
  - simpl. now intros [= ->].
  - intros H. change (last_char (String x (String y s'))) with (last_char (String y s')) in H.
    change (drop_last (String x (String y s'))) with (String x (drop_last (String y s'))).
    cbn [append]. now rewrite <- (IH H).
Qed.

(** X2: [trim_space] takes away at most one character, and only a
    blank, a newline or a carriage return at the very end; a second
    trailing blank, or the carriage return in front of a newline,
    stays. *)
Theorem trim_space_one_character (str : string) :
  trim_space str = str
  \/ exists c : ascii,
       (c = SP \/ c = LF \/ c = CR)
       /\ str = (trim_space str ++ String c EmptyString)%string.
Proof.
  unfold trim_space, last_is.
  destruct (last_char str) as [c|] eqn:Hlast; [|now left].
  destruct (Ascii.eqb_spec c SP) as [->|Hsp]; cbn [orb].
  { right. exists SP. split; [tauto | now apply drop_last_last]. }
  destruct (Ascii.eqb_spec c LF) as [->|Hlf]; cbn [orb].
  { right. exists LF. split; [tauto | now apply drop_last_last]. }
  destruct (Ascii.eqb_spec c CR) as [->|Hcr].
  { right. exists CR. split; [tauto | now apply drop_last_last]. }
  now left.
Qed.

Example trim_space_crlf :
  trim_space ("ls" ++ String CR (String LF EmptyString)) = ("ls" ++ String CR EmptyString)%string.
Proof. reflexivity. Qed.

(** ** What the assembler leaves alone *)

Lemma same_but_redirections_refl (s : state) : same_but_redirections s s.
Proof. repeat split. Qed.

Lemma same_but_redirections_field (s : state) (f : process -> process) :
  (forall p, pid (f p) = pid p /\ previous_commands (f p) = previous_commands p
             /\ history_file (f p) = history_file p
             /\ background_jobs (f p) = background_jobs p
             /\ background_jobs_commands (f p) = background_jobs_commands p) ->
  same_but_redirections s (set_process f s).
Proof.
  intros Hf. destruct (Hf (current_process s)) as (H1 & H2 & H3 & H4 & H5).
  unfold same_but_redirections, set_process. cbn [os current_process]. tauto.
Qed.

(** X3: the assembler writes nothing but the three redirection fields:
    the history, the job table, the files, the working directory and
    the output are the same after it as before, whether it returns or
    faults, and it never exits. *)
Theorem assemble_frame (tokens : list string) (a : assembly) (s : state) :
  match assemble tokens a s with
  | Ret _ s' | Fault s' => same_but_redirections s s'
  | Exited _ _ | Killed _ | OutOfFuel => False
  end.
Proof.
  revert a. induction tokens as [|token rest IH]; intros a.
  - apply same_but_redirections_refl.
  - cbn [assemble].
    destruct (String.eqb token "&&" || String.eqb token "||").
    { destruct (current_command a); apply IH. }
    destruct (last_is ";"%char token).
    { destruct (current_command a); apply IH. }
    assert (Hpush : forall f : process -> process,
               (forall p, pid (f p) = pid p /\ previous_commands (f p) = previous_commands p
                          /\ history_file (f p) = history_file p
                          /\ background_jobs (f p) = background_jobs p
                          /\ background_jobs_commands (f p) = background_jobs_commands p) ->
               match bind (modify (set_process f))
                          (fun _ => push_command (current_command a) a) s with
               | Ret _ s' | Fault s' => same_but_redirections s s'
               | Exited _ _ | Killed _ | OutOfFuel => False
               end).
    { intros f Hf. unfold bind, modify, push_command.
      destruct (current_command a); now apply same_but_redirections_field. }
    destruct (String.eqb token ">").
    { destruct rest; [apply same_but_redirections_refl|]. apply Hpush. now intros []. }
    destruct (String.eqb token ">>").
    { destruct rest; [apply same_but_redirections_refl|]. apply Hpush. now intros []. }
    destruct (String.eqb token "<").
    { destruct rest; [apply same_but_redirections_refl|]. apply Hpush. now intros []. }
    destruct (String.eqb token "&").
    { destruct (current_command a); [apply IH | apply same_but_redirections_refl]. }
    destruct rest; [apply same_but_redirections_refl | apply IH].
Qed.

(** ** One command on a line *)

Lemma execute_command_no_operator (E : env) (fuel : nat) (line c0 : string)
      (cs : list string) (cur : option string) (s s1 : state) :
  assemble (strtok line) empty_assembly s = Ret (mk_assembly (c0 :: cs) None cur) s1 ->
  execute_command E (S fuel) (Line line) s
  = bind (dispatch E (execute_command E fuel) c0)
         (fun _ => if inspects_history c0 then ret tt else save_command E (Line line)) s1.
Proof.
  intros H. cbn [execute_command]. unfold bind at 1. cbn [deref]. unfold ret at 1.
  unfold bind at 1. rewrite H. cbn [logical_operator commands].
  unfold bind at 1. cbn [vector_get nth_error]. unfold ret at 1.
  unfold inspects_history. unfold bind.
  destruct (dispatch E (execute_command E fuel) c0 s1); try reflexivity.
  now destruct (String.eqb c0 "!history"), (first_is "#"%char c0), (first_is "!"%char c0).
Qed.

Lemma join_plain_ending (ws : list string) (eol : string) :
  plain_command ws = true -> line_end eol ->
  strtok (join ws ++ eol) = ending eol ws.
Proof.
  intros H Heol. destruct (plain_command_inv ws H) as [Hne Hall].
  rewrite <- join_ending by assumption.
  apply strtok_join, Forall_word_ending; [assumption | now apply no_blank_line_end].
Qed.

(** X4: a line that is one command of plain words, with or without
    its newline, is dispatched once, as the words joined by single
    blanks, and then recorded in the history, unless the command is
    [!history] or begins with [#] or [!]: those are never recorded. *)
Theorem single_command_line (E : env) (fuel : nat) (ws : list string)
        (eol : string) (s : state) :
  plain_command ws = true -> line_end eol ->
  execute_command E (S fuel) (Line (join ws ++ eol)) s
  = bind (dispatch E (execute_command E fuel) (join ws))
         (fun _ => if inspects_history (join ws) then ret tt
                   else save_command E (Line (join ws ++ eol))) s.
Proof.
  intros H Heol.
  apply (execute_command_no_operator E fuel _ (join ws) [] (Some (join ws))).
  rewrite join_plain_ending by assumption.
  unfold empty_assembly. now rewrite assemble_last_command.
Qed.

Lemma single_command_line_witness :
  execute_command Demo.E 3 (Line ("!history" ++ Demo.nl)) Demo.s_hist
  = bind (dispatch Demo.E (execute_command Demo.E 2) "!history")
         (fun _ => ret tt) Demo.s_hist.
Proof.
  apply (single_command_line Demo.E 2 ["!history"] Demo.nl Demo.s_hist).
  - reflexivity.
  - right. reflexivity.
Defined.

(** ** Redirection and the rest of the line *)

Lemma word_redirection (r : string) : In r [">"; ">>"; "<"] -> word r.
Proof.
  simpl. intros [<-|[<-|[<-|[]]]]; split; (discriminate || reflexivity).
Qed.

(** X5: assembly stops at the first redirection operator: the token
    after it becomes the path (trimmed once), and every token after
    the path, operators and further commands included, is dropped: the
    line runs as the one command in front of the operator. *)
Theorem redirection_ends_the_line (E : env) (fuel : nat) (ws : list string)
        (r path : string) (rest : list string) (s : state) :
  plain_command ws = true ->
  In r [">"; ">>"; "<"] ->
  Forall word (path :: rest) ->
  execute_command E (S fuel) (Line (join (ws ++ r :: path :: rest))) s
  = bind (dispatch E (execute_command E fuel) (join ws))
         (fun _ => if inspects_history (join ws) then ret tt
                   else save_command E (Line (join (ws ++ r :: path :: rest))))
         (set_process (redirection_field r (Some (trim_space path))) s).
Proof.
  intros H Hr Hrest. destruct (plain_command_inv ws H) as [Hne Hall].
  apply (execute_command_no_operator E fuel _ (join ws) [] (Some (join ws))).
  rewrite strtok_join.
  2:{ apply Forall_app. split; [now apply Forall_word_plain|].
      constructor; [now apply word_redirection | exact Hrest]. }
  rewrite assemble_plain_prefix by (assumption || discriminate).
  unfold empty_assembly. cbn [commands logical_operator current_command].
  rewrite grow_none by assumption.
  simpl in Hr. destruct Hr as [<-|[<-|[<-|[]]]]; reflexivity.
Qed.

Lemma redirection_ends_the_line_witness :
  execute_command Demo.E 3 (Line "echo hi > out.txt && echo again") Demo.s0
  = bind (dispatch Demo.E (execute_command Demo.E 2) "echo hi")
         (fun _ => save_command Demo.E (Line "echo hi > out.txt && echo again"))
         (set_process (set_output_file (Some "out.txt")) Demo.s0).
Proof.
  apply (redirection_ends_the_line Demo.E 2 ["echo"; "hi"] ">" "out.txt"
           ["&&"; "echo"; "again"] Demo.s0).
  - reflexivity.
  - simpl. tauto.
  - repeat constructor; discriminate.
Defined.

Example second_command_after_redirection_is_dropped :
  exists s' : state,
    execute_command Demo.E 3 (Line "echo hi > out.txt && echo again") Demo.s0 = Ret tt s'
    /\ files (os s') = [("out.txt", "hi" ++ Demo.nl)]
    /\ log (os s') = [print_command_executed 100]
    /\ forks (os s') = 1%nat.
Proof. eexists. split; [vm_compute; reflexivity|]. repeat split. Qed.

(** ** Commands in the background *)









Example background_from_history_faults :
  exists s1 : state,
    execute_command Demo.E 3 (Line ("sleep 5 &" ++ Demo.nl)) Demo.s0 = Ret tt s1
    /\ previous_commands (current_process s1) = ["sleep 5 &"]
    /\ execute_command Demo.E 3 (Line "#0") s1
       = Fault (set_world (add_log (print_command "sleep 5 &")) s1).
Proof. eexists. split; [vm_compute; reflexivity|]. split; reflexivity. Qed.

(** ** What the child does with the redirections *)

Lemma fs_read_write_other (fs : list (string * string)) (path other content : string) :
  other <> path -> fs_read (fs_write fs path content) other = fs_read fs other.
Proof.
  intros Hne. induction fs as [|[p c] fs IH]; simpl.
  - apply String.eqb_neq in Hne. rewrite String.eqb_sym. now rewrite Hne.
  - destruct (String.eqb p path) eqn:Hp; simpl.
    + apply String.eqb_eq in Hp. subst p.
      assert (Hpo : String.eqb path other = false).
      { apply String.eqb_neq. congruence. }
      now rewrite Hpo.
    + destruct (String.eqb p other); [reflexivity | exact IH].
Qed.

Lemma fs_read_create_other (fs : list (string * string)) (path other : string) :
  other <> path -> fs_read (fs_create fs path) other = fs_read fs other.
Proof.
  intros Hne. unfold fs_create. destruct (fs_read fs path); [reflexivity|].
  now apply fs_read_write_other.
Qed.

(** X8: with [>>] alone the child's output goes behind what the file
    held; a file that did not exist is created and holds the output. *)
Theorem append_redirection_appends (E : env) (p : process) (child : Z)
        (command path bytes : string) (status : wait_status) (w : world) :
  output_file p = None ->
  append_file p = Some path ->
  input_file p = None ->
  can_open E path = true ->
  strtok command <> [] ->
  image E (strtok command) None = Some (bytes, status) ->
  exists w' : world,
    child_process E p child command w = (w', status)
    /\ fs_read (files w') path
       = Some (match fs_read (files w) path with Some c => c | None => EmptyString end
               ++ bytes)%string
    /\ (forall other, other <> path -> fs_read (files w') other = fs_read (files w) other)
    /\ log w' = (log w ++ [print_command_executed child])%list.
Proof.
  intros Hout Happ Hin Hopen Hargs Himage.
  unfold child_process. rewrite Hout, Happ, Hin, Hopen. cbn [option_map].
  destruct (strtok command) as [|a args] eqn:Htok; [congruence|].
  rewrite Himage. eexists. split; [reflexivity|].
  unfold emit, set_files, add_log. cbn [files log].
  rewrite fs_read_create, fs_write_create, fs_read_write.
  split; [reflexivity|]. split; [|reflexivity].
  intros other Hne. now apply fs_read_write_other.
Qed.

Lemma append_redirection_appends_witness :
  exists w' : world,
    child_process Demo.E (set_append_file (Some "out.txt") (init_process 1)) 100
      "echo bye" (os Demo.s_file) = (w', WExited 0)
    /\ fs_read (files w') "out.txt" = Some ("hello world" ++ "bye" ++ Demo.nl)%string
    /\ (forall other, other <> "out.txt"
                      -> fs_read (files w') other = fs_read (files (os Demo.s_file)) other)
    /\ log w' = [print_command_executed 100].
Proof.
  apply (append_redirection_appends Demo.E _ 100 "echo bye" "out.txt" ("bye" ++ Demo.nl)
           (WExited 0) (os Demo.s_file)); try reflexivity. discriminate.
Defined.

(** X9: when both an output path and an append path are set (the first
    left over from a command that failed), the output goes to the
    append path, behind its contents; the output path is only opened:
    it comes into being when missing and keeps what it held. *)
Theorem append_wins_over_truncate (E : env) (p : process) (child : Z)
        (command out app bytes : string) (status : wait_status) (w : world) :
  output_file p = Some out ->
  append_file p = Some app ->
  input_file p = None ->
  out <> app ->
  can_open E out = true ->
  can_open E app = true ->
  strtok command <> [] ->
  image E (strtok command) None = Some (bytes, status) ->
  exists w' : world,
    child_process E p child command w = (w', status)
    /\ fs_read (files w') app
       = Some (match fs_read (files w) app with Some c => c | None => EmptyString end
               ++ bytes)%string
    /\ fs_read (files w') out
       = Some (match fs_read (files w) out with Some c => c | None => EmptyString end).
Proof.
  intros Hout Happ Hin Hne Hopen1 Hopen2 Hargs Himage.
  unfold child_process. rewrite Hout, Happ, Hin, Hopen1. cbn [files set_files add_log].
  rewrite Hopen2. cbn [option_map].
  destruct (strtok command) as [|a args] eqn:Htok; [congruence|].
  rewrite Himage. eexists. split; [reflexivity|].
  unfold emit, set_files. cbn [files].
  rewrite fs_read_create, fs_write_create, fs_read_write.
  rewrite (fs_read_create_other _ out app) by congruence.
  split; [reflexivity|].
  rewrite fs_read_write_other by assumption. apply fs_read_create.
Qed.

Lemma append_wins_over_truncate_witness :
  exists w' : world,
    child_process Demo.E
      (set_append_file (Some "log.txt") (set_output_file (Some "out.txt") (init_process 1)))
      100 "echo bye" (os Demo.s_file) = (w', WExited 0)
    /\ fs_read (files w') "log.txt" = Some ("" ++ "bye" ++ Demo.nl)%string
    /\ fs_read (files w') "out.txt" = Some "hello world".
Proof.
  apply (append_wins_over_truncate Demo.E _ 100 "echo bye" "out.txt" "log.txt"
           ("bye" ++ Demo.nl) (WExited 0) (os Demo.s_file)); try reflexivity; discriminate.
Defined.

(** ** The status of a foreground command *)

(** X10: a foreground external command always returns, with 0 or 1:
    0 exactly when the fork succeeded and the child ended by exiting
    with 0; a failed fork, an exit with another status and an end by a
    signal all give 1. *)
Theorem foreground_status (E : env) (command : string) (c : ascii) (s : state) :
  last_char command = Some c ->
  Ascii.eqb c "&"%char = false ->
  exists s' : state,
    execute_external_command E command s
    = Ret (match fork_result E (forks (os s)) with
           | None => 1
           | Some child =>
               match snd (child_process E (current_process s) child command
                            (count_fork (os s))) with
               | WExited code => if code =? 0 then 0 else 1
               | WSignaled => 1
               end
           end) s'.
Proof.
  intros Hlast Hfg. unfold execute_external_command. rewrite Hlast, Hfg.
  unfold bind at 1, get. unfold bind at 1, modify at 1.
  cbn [os set_world]. destruct (fork_result E (forks (os s))) as [child|].
  - unfold bind at 1, get. cbn [current_process os set_world].
    destruct (child_process E (current_process s) child command (count_fork (os s)))
      as [w status].
    cbn [snd]. destruct status as [code|].
    + destruct (code =? 0); eexists; reflexivity.
    + eexists. reflexivity.
  - eexists. reflexivity.
Qed.

Lemma foreground_status_witness :
  exists s' : state, execute_external_command Demo.E "false" Demo.s0 = Ret 1 s'.
Proof.
  apply (foreground_status Demo.E "false" "e"%char Demo.s0); reflexivity.
Defined.

(** ** The history built-ins *)

Lemma history_lines_rows (entries : list string) (i : nat) (s : state) :
  history_lines i entries s
  = Ret tt (set_world
              (add_logs (map (fun ie => print_history_line (fst ie) (snd ie))
                             (combine (seq i (List.length entries)) entries))) s).
Proof.
  revert i s. induction entries as [|e entries IH]; intros i s.
  - cbn. unfold ret. now rewrite add_logs_nil.
  - cbn [history_lines]. unfold bind, say, modify. rewrite IH.
    cbn [List.length seq combine map fst snd]. now rewrite add_logs_cons.
Qed.

(** X11: [!history] prints one line per entry of the history, oldest
    first, numbered from 0, returns 0 and changes nothing else. *)
Theorem execute_history_rows (s : state) :
  execute_history s
  = Ret 0 (set_world
             (add_logs (map (fun ie => print_history_line (fst ie) (snd ie))
                            (combine (seq 0 (List.length (previous_commands (current_process s))))
                                     (previous_commands (current_process s))))) s).
Proof.
  unfold execute_history, bind, get. now rewrite history_lines_rows.
Qed.

Lemma nth_error_after (before after : list string) (e : string) (k : nat) :
  nth_error (before ++ e :: after) (List.length before + S k) = nth_error after k.
Proof.
  induction before as [|x before IH]; [reflexivity | exact IH].
Qed.

Lemma nth_error_at (before after : list string) (e : string) :
  nth_error (before ++ e :: after) (List.length before) = Some e.
Proof. induction before; simpl; auto. Qed.

Lemma prefix_scan_last_match (prefix : string) (before after : list string) (e : string) (k : nat) :
  strncmp_prefix prefix e = true ->
  Forall (fun x => strncmp_prefix prefix x = false) after ->
  prefix_scan prefix (before ++ e :: after) (S (List.length before + k))
  = Some (List.length before).
Proof.
  intros He Hafter. induction k as [|k IH].
  - rewrite Nat.add_0_r. cbn [prefix_scan]. now rewrite nth_error_at, He.
  - cbn [prefix_scan]. rewrite nth_error_after.
    rewrite Nat.add_succ_r.
    destruct (nth_error after k) as [x|] eqn:Hx; [|exact IH].
    apply nth_error_In in Hx.
    rewrite Forall_forall in Hafter. rewrite (Hafter x Hx). exact IH.
Qed.

Lemma prefix_scan_no_match (prefix : string) (entries : list string) (i : nat) :
  Forall (fun x => strncmp_prefix prefix x = false) entries ->
  prefix_scan prefix entries i = None.
Proof.
  intros H. induction i as [|i IH]; [reflexivity|].
  cbn [prefix_scan]. destruct (nth_error entries i) as [x|] eqn:Hx; [|exact IH].
  apply nth_error_In in Hx. rewrite Forall_forall in H. now rewrite (H x Hx).
Qed.

Lemma execute_prefix_finds (rec : cmdref -> M unit) (prefix e : string)
      (before after : list string) (s : state) :
  previous_commands (current_process s) = (before ++ e :: after)%list ->
  strncmp_prefix prefix e = true ->
  Forall (fun x => strncmp_prefix prefix x = false) after ->
  execute_prefix rec prefix s
  = bind (rec (Hist (List.length before))) (fun _ => ret 0)
         (set_world (add_log (print_command e)) s).
Proof.
  intros Hh He Hafter. unfold execute_prefix. unfold bind at 1, get.
  rewrite Hh.
  replace (List.length (before ++ e :: after)) with (S (List.length before + List.length after))
    by (rewrite length_app; simpl; lia).
  rewrite prefix_scan_last_match by assumption.
  unfold bind at 1, vector_get. rewrite nth_error_at. reflexivity.
Qed.

(** X12: [execute_prefix] runs the most recent entry that begins with
    the prefix: the entry is printed and handed to [execute_command]
    from its place in the history, and 0 is returned; older entries
    with the same prefix are not looked at. *)
Theorem execute_prefix_most_recent (rec : cmdref -> M unit) (prefix e : string)
        (before after : list string) (s : state) :
  previous_commands (current_process s) = (before ++ e :: after)%list ->
  strncmp_prefix prefix e = true ->
  Forall (fun x => strncmp_prefix prefix x = false) after ->
  execute_prefix rec prefix s
  = bind (rec (Hist (List.length before))) (fun _ => ret 0)
         (set_world (add_log (print_command e)) s).
Proof.
  intros Hh He Hafter. unfold execute_prefix. unfold bind at 1, get.
  rewrite Hh, length_app. cbn [List.length]. rewrite Nat.add_succ_r.
  rewrite prefix_scan_last_match by assumption.
  unfold bind at 1, vector_get. rewrite nth_error_at. reflexivity.
Qed.

Lemma execute_prefix_most_recent_witness :
  execute_prefix (execute_command Demo.E 3) "echo" Demo.s_hist
  = bind (execute_command Demo.E 3 (Hist 1)) (fun _ => ret 0)
         (set_world (add_log (print_command "echo b")) Demo.s_hist).
Proof.
  apply (execute_prefix_most_recent (execute_command Demo.E 3) "echo" "echo b"
           ["echo a"] [] Demo.s_hist).
  - reflexivity.
  - reflexivity.
  - constructor.
Defined.

(** X13: when no entry begins with the prefix, and so with an empty
    history, [execute_prefix] reports that there is no match, returns
    1 and calls nothing back. *)
Theorem execute_prefix_no_match (rec : cmdref -> M unit) (prefix : string) (s : state) :
  Forall (fun x => strncmp_prefix prefix x = false) (previous_commands (current_process s)) ->
  execute_prefix rec prefix s = Ret 1 (set_world (add_log print_no_history_match) s).
Proof.
  intros H. unfold execute_prefix. unfold bind at 1, get.
  now rewrite prefix_scan_no_match.
Qed.

Lemma execute_prefix_no_match_witness :
  execute_prefix (execute_command Demo.E 3) "ls" Demo.s_hist
  = Ret 1 (set_world (add_log print_no_history_match) Demo.s_hist).
Proof.
  apply (execute_prefix_no_match (execute_command Demo.E 3) "ls" Demo.s_hist).
  repeat constructor.
Defined.

Lemma prefix_empty (e : string) : strncmp_prefix EmptyString e = true.
Proof. now destruct e. Qed.

(** X14: the built-in [!<text>] passes everything after the [!],
    arguments included, as the prefix; [!] alone has the empty prefix
    and runs the most recent entry, whatever it is. *)
Theorem bang_alone_runs_last (E : env) (rec : cmdref -> M unit) (e : string)
        (before : list string) (s : state) :
  previous_commands (current_process s) = (before ++ [e])%list ->
  execute_builtin_command E rec "!" s
  = bind (rec (Hist (List.length before))) (fun _ => ret 0)
         (set_world (add_log (print_command e)) s).
Proof.
  intros Hh.
  change (execute_builtin_command E rec "!" s) with (execute_prefix rec EmptyString s).
  apply (execute_prefix_finds rec EmptyString e before [] s Hh);
    [apply prefix_empty | constructor].
Qed.

Lemma bang_alone_runs_last_witness :
  execute_builtin_command Demo.E (execute_command Demo.E 3) "!" Demo.s_hist
  = bind (execute_command Demo.E 3 (Hist 1)) (fun _ => ret 0)
         (set_world (add_log (print_command "echo b")) Demo.s_hist).
Proof.
  apply (bang_alone_runs_last Demo.E (execute_command Demo.E 3) "echo b" ["echo a"]
           Demo.s_hist). reflexivity.
Defined.

Example bang_with_arguments :
  exists s' : state,
    execute_command Demo.E 3 (Line "!echo a") Demo.s_hist = Ret tt s'
    /\ log (os s') = [print_command "echo a"; print_command_executed 100;
                      program_output ("a" ++ Demo.nl)].
Proof. eexists. split; [vm_compute; reflexivity | reflexivity]. Qed.

(** ** [cd] and [exit] *)

Lemma set_cwd_twice (d : string) (s : state) :
  set_world (set_cwd d) (set_world (set_cwd d) s) = set_world (set_cwd d) s.
Proof. reflexivity. Qed.

(** X15: [cd] resolves a path that does not begin with [/] against the
    current directory; when [chdir] succeeds the directory changes and
    0 is returned; when it fails the directory stays, the path as
    typed is reported and 1 is returned. *)
Theorem execute_cd_result (E : env) (path : string) (s : state) :
  execute_cd E path s
  = match chdir_to E (cd_target s path) with
    | Some d => Ret 0 (set_world (set_cwd d) s)
    | None => Ret 1 (set_world (add_log (print_no_directory path)) s)
    end.
Proof.
  unfold execute_cd, cd_target.
  destruct (first_is "/"%char path); cbn [negb].
  - unfold bind, sys_chdir.
    destruct (chdir_to E path) as [d|] eqn:Hd; unfold bind, modify, ret; rewrite ?Hd;
      reflexivity.
  - unfold bind at 1, get. unfold bind, sys_chdir.
    destruct (chdir_to E (cwd (os s) ++ "/" ++ path)); reflexivity.
Qed.

Lemma signal_proc_state (j : Z) (sig : signal) (ps ps' : list (Z * run_state)) :
  signal_proc j sig ps = Some ps' ->
  (exists r, proc_state j ps = Some r /\ proc_state j ps' = Some (deliver sig r))
  /\ forall p, p <> j -> proc_state p ps' = proc_state p ps.
Proof.
  revert ps'. induction ps as [|[q r] ps IH]; intros ps' H; [discriminate|].
  cbn [signal_proc] in H. cbn [proc_state].
  destruct (Z.eqb_spec q j) as [->|Hne].
  - injection H as <-. cbn [proc_state]. rewrite Z.eqb_refl. split.
    + now exists r.
    + intros p Hp. destruct (Z.eqb_spec j p); [congruence | reflexivity].
  - destruct (signal_proc j sig ps) as [ps1|] eqn:Hs; [|discriminate].
    cbn [option_map] in H. injection H as <-.
    destruct (IH ps1 eq_refl) as [Hsame Hother].
    cbn [proc_state]. destruct (Z.eqb_spec q j) as [|_]; [congruence|]. split.
    + exact Hsame.
    + intros p Hp. destruct (q =? p); [reflexivity | now apply Hother].
Qed.

Lemma signal_proc_none (j : Z) (sig : signal) (ps : list (Z * run_state)) :
  signal_proc j sig ps = None -> proc_state j ps = None.
Proof.
  induction ps as [|[q r] ps IH]; cbn [signal_proc proc_state]; intros H;
    [reflexivity|].
  destruct (q =? j); [discriminate|].
  destruct (signal_proc j sig ps); [discriminate | now apply IH].
Qed.

(** One [kill_process] on a pid a job can have. *)
Lemma kill_process_job (E : env) (j : Z) (s : state) :
  job_pid s j ->
  exists s' : state,
    kill_process E j s = Ret tt s'
    /\ current_process s' = current_process s
    /\ log (os s') = (log (os s) ++ [kill_report (procs (os s)) j])%list
    /\ (proc_state j (procs (os s)) <> None -> proc_state j (procs (os s')) = Some Zombie)
    /\ (forall p, p <> j -> proc_state p (procs (os s')) = proc_state p (procs (os s)))
    /\ (forall p, proc_state p (procs (os s')) = None <-> proc_state p (procs (os s)) = None)
    /\ files (os s') = files (os s) /\ cwd (os s') = cwd (os s).
Proof.
  intros [Hpos Hself]. unfold kill_process. unfold bind at 1.
  rewrite sys_kill_other by assumption. unfold kill_report.
  destruct (signal_proc j SIGKILL (procs (os s))) as [ps'|] eqn:Hsig.
  - destruct (signal_proc_state j SIGKILL _ _ Hsig) as [(r & Hr & Hr') Hother].
    eexists. split; [reflexivity|]. cbn. rewrite Hr.
    assert (Hz : deliver SIGKILL r = Zombie) by now destruct r.
    rewrite Hz in Hr'.
    repeat split; try assumption; try tauto.
    + intros Hp. destruct (Z.eq_dec p j) as [->|Hne]; [congruence|].
      now rewrite <- (Hother p Hne).
    + intros Hp. destruct (Z.eq_dec p j) as [->|Hne]; [congruence|].
      now rewrite (Hother p Hne).
  - pose proof (signal_proc_none j SIGKILL _ Hsig) as Hnone.
    eexists. split; [reflexivity|]. cbn. rewrite Hnone.
    repeat split; try tauto; congruence.
Qed.

(** X16: [exit] sends [SIGKILL] to every pid of the job table, in the
    order of the table, and ends the shell with status 0: every job
    that names a process has ended afterwards, the processes outside
    the table are as they were, and one message per pid is printed,
    the killed-process message for a pid that names a process and the
    process-not-found message for one that does not; the job table
    itself and the files are left as they are. *)
Theorem exit_shell_kills_jobs (E : env) (s : state) :
  Forall (job_pid s) (background_jobs (current_process s)) ->
  exists s' : state,
    @exit_shell E Z s = Exited 0 s'
    /\ current_process s' = current_process s
    /\ log (os s')
       = (log (os s)
          ++ map (kill_report (procs (os s))) (background_jobs (current_process s)))%list
    /\ (forall j, In j (background_jobs (current_process s)) ->
                  proc_state j (procs (os s)) <> None ->
                  proc_state j (procs (os s')) = Some Zombie)
    /\ (forall p, ~ In p (background_jobs (current_process s)) ->
                  proc_state p (procs (os s')) = proc_state p (procs (os s)))
    /\ files (os s') = files (os s) /\ cwd (os s') = cwd (os s).
Proof.
  intros Hjobs. unfold exit_shell. unfold bind at 1, get.
  assert (Hloop : forall (jobs : list Z) (s0 : state),
             Forall (job_pid s0) jobs ->
             exists s' : state,
               (fix loop (jobs : list Z) : M unit :=
                  match jobs with
                  | [] => ret tt
                  | j :: rest => bind (kill_process E j) (fun _ => loop rest)
                  end) jobs s0 = Ret tt s'
               /\ current_process s' = current_process s0
               /\ log (os s') = (log (os s0) ++ map (kill_report (procs (os s0))) jobs)%list
               /\ (forall j, In j jobs -> proc_state j (procs (os s0)) <> None ->
                             proc_state j (procs (os s')) = Some Zombie)
               /\ (forall p, ~ In p jobs ->
                             proc_state p (procs (os s')) = proc_state p (procs (os s0)))
               /\ (forall p, proc_state p (procs (os s')) = None
                             <-> proc_state p (procs (os s0)) = None)
               /\ (forall p, proc_state p (procs (os s0)) = Some Zombie ->
                             proc_state p (procs (os s')) = Some Zombie)
               /\ files (os s') = files (os s0) /\ cwd (os s') = cwd (os s0)).
  { induction jobs as [|j jobs IH]; intros s0 Hall.
    - exists s0. cbn. rewrite app_nil_r. repeat split; tauto.
    - inversion Hall as [|? ? Hj Hrest]; subst.
      destruct (kill_process_job E j s0 Hj)
        as (s1 & Hk & Hp & Hl & Hz & Ho & Hn & Hf & Hc).
      destruct (IH s1) as (s2 & Hr & Hp2 & Hl2 & Hz2 & Ho2 & Hn2 & Hk2 & Hf2 & Hc2).
      { unfold job_pid in *. rewrite Hp. exact Hrest. }
      assert (Hreport : map (kill_report (procs (os s1))) jobs
                        = map (kill_report (procs (os s0))) jobs).
      { apply map_ext. intros p. unfold kill_report.
        destruct (proc_state p (procs (os s1))) eqn:H1;
          destruct (proc_state p (procs (os s0))) eqn:H0; try reflexivity.
        - apply Hn in H0. congruence.
        - apply Hn in H1. congruence. }
      assert (Hkeep : forall p, proc_state p (procs (os s0)) = Some Zombie ->
                                proc_state p (procs (os s1)) = Some Zombie).
      { intros p Hp0. destruct (Z.eq_dec p j) as [->|Hne].
        - apply Hz. congruence.
        - now rewrite (Ho p Hne). }
      exists s2. split.
      + unfold bind at 1. rewrite Hk. exact Hr.
      + split; [congruence|]. split.
        { rewrite Hl2, Hl, Hreport, <- app_assoc. reflexivity. }
        split.
        { intros p [<-|Hin] Hex.
          - apply Hk2. now apply Hz.
          - apply Hz2; [exact Hin|]. intros Hnone. apply Hn in Hnone. congruence. }
        split.
        { intros p Hnot. rewrite Ho2 by (intros Hin; apply Hnot; now right).
          apply Ho. intros ->. apply Hnot. now left. }
        split.
        { intros p. rewrite Hn2. apply Hn. }
        split.
        { intros p Hp0. apply Hk2. now apply Hkeep. }
        split; congruence. }
  destruct (Hloop _ s Hjobs) as (s' & Hr & Hp & Hl & Hz & Ho & _ & _ & Hf & Hc).
  exists s'. split.
  - unfold bind at 1. rewrite Hr. reflexivity.
  - repeat split; assumption.
Qed.

Lemma exit_shell_kills_jobs_witness :
  exists s' : state,
    @exit_shell Demo.E Z Demo.s_jobs = Exited 0 s'
    /\ current_process s' = current_process Demo.s_jobs
    /\ log (os s') = [print_killed_process 100 "command"; print_no_process_found 101]
    /\ (forall j, In j [100; 101] ->
                  proc_state j (procs (os Demo.s_jobs)) <> None ->
                  proc_state j (procs (os s')) = Some Zombie)
    /\ (forall p, ~ In p [100; 101] ->
                  proc_state p (procs (os s')) = proc_state p (procs (os Demo.s_jobs)))
    /\ files (os s') = [] /\ cwd (os s') = "/".
Proof.
  apply (exit_shell_kills_jobs Demo.E Demo.s_jobs).
  repeat constructor; discriminate.
Defined.

(** ** Relations that every call respects

    A relation between the state before and the state after is carried
    through the whole of [execute_command] once it is reflexive,
    transitive, and respected by the few places where the code writes:
    the world outside, the redirection fields, the two vectors of the
    job table together, and the history when it does not get shorter. *)

Section Respected.

Variable R : state -> state -> Prop.

Hypothesis R_refl : forall s, R s s.
Hypothesis R_trans : forall s1 s2 s3, R s1 s2 -> R s2 s3 -> R s1 s3.
Hypothesis R_world : forall (f : world -> world) (s : state), R s (set_world f s).
Hypothesis R_redirection :
  forall (o i a : option string) (s : state),
    R s (set_process (fun p => set_append_file a (set_output_file o (set_input_file i p))) s).
Hypothesis R_launch :
  forall (child : Z) (text : string) (s : state),
    R s (set_process (fun p =>
           set_background_jobs_commands (background_jobs_commands p ++ [text])
             (set_background_jobs (background_jobs p ++ [child]) p)) s).
Hypothesis R_history :
  forall (h : list string) (s : state),
    (List.length (previous_commands (current_process s)) <= List.length h)%nat ->
    R s (set_process (set_previous_commands h) s).

Lemma ends_in_ret {A : Type} (a : A) : ends_in R (ret a).
Proof. intros s. apply R_refl. Qed.

Lemma ends_in_fault {A : Type} : ends_in R (@fault A).
Proof. intros s. apply R_refl. Qed.

Lemma ends_in_get : ends_in R get.
Proof. intros s. apply R_refl. Qed.

Lemma ends_in_bind {A B : Type} (m : M A) (k : A -> M B) :
  ends_in R m -> (forall a, ends_in R (k a)) -> ends_in R (bind m k).
Proof.
  intros Hm Hk s. unfold bind. specialize (Hm s).
  destruct (m s) as [a s1| | | |]; try exact Hm.
  specialize (Hk a s1). destruct (k a s1); try exact I; eapply R_trans; eassumption.
Qed.

Lemma ends_in_modify (f : state -> state) :
  (forall s, R s (f s)) -> ends_in R (modify f).
Proof. intros H s. apply H. Qed.

Lemma ends_in_say (m : msg) : ends_in R (say m).
Proof. apply ends_in_modify. intros s. apply R_world. Qed.

Lemma ends_in_vector_get {A : Type} (v : list A) (i : nat) : ends_in R (vector_get v i).
Proof. unfold vector_get. destruct (nth_error v i); [apply ends_in_ret | apply ends_in_fault]. Qed.

Lemma ends_in_or_fault {A : Type} (r : option A) : ends_in R (or_fault r).
Proof. destruct r; [apply ends_in_ret | apply ends_in_fault]. Qed.

Ltac ends :=
  repeat (intros;
          match goal with
          | |- ends_in _ (bind _ _) => apply ends_in_bind
          | |- ends_in _ (ret _) => apply ends_in_ret
          | |- ends_in _ fault => apply ends_in_fault
          | |- ends_in _ get => apply ends_in_get
          | |- ends_in _ (say _) => apply ends_in_say
          | |- ends_in _ (vector_get _ _) => apply ends_in_vector_get
          | |- ends_in _ (or_fault _) => apply ends_in_or_fault
          | |- ends_in _ (modify (set_world _)) =>
              apply ends_in_modify; intros; apply R_world
          | |- ends_in _ (match ?x with _ => _ end) => destruct x
          end).

Lemma ends_in_sys_kill (E : env) (target : Z) (sig : signal) :
  ends_in R (sys_kill E target sig).
Proof.
  unfold sys_kill, signal_self. ends.
  all: try (intros s0; apply R_refl).
Qed.

Lemma ends_in_kill_process (E : env) (target : Z) : ends_in R (kill_process E target).
Proof. unfold kill_process. ends; try (intros; apply ends_in_sys_kill). Qed.

Lemma ends_in_stop_process (E : env) (target : Z) : ends_in R (stop_process E target).
Proof. unfold stop_process. ends; try (intros; apply ends_in_sys_kill). Qed.

Lemma ends_in_continue_process (E : env) (target : Z) : ends_in R (continue_process E target).
Proof. unfold continue_process. ends; try (intros; apply ends_in_sys_kill). Qed.

Lemma ends_in_exit_shell (E : env) : ends_in R (@exit_shell E Z).
Proof.
  unfold exit_shell. apply ends_in_bind; [apply ends_in_get | intros s0].
  apply ends_in_bind.
  - induction (background_jobs (current_process s0)) as [|j jobs IH].
    + apply ends_in_ret.
    + apply ends_in_bind; [apply ends_in_kill_process | intros _; exact IH].
  - intros _ s1. apply R_refl.
Qed.

Lemma ends_in_execute_cd (E : env) (path : string) : ends_in R (execute_cd E path).
Proof. unfold execute_cd, sys_chdir. ends. Qed.

Lemma ends_in_history_lines (entries : list string) (i : nat) :
  ends_in R (history_lines i entries).
Proof.
  revert i. induction entries as [|e entries IH]; intros i; cbn [history_lines]; ends;
    try (intros; apply IH).
Qed.

Lemma ends_in_execute_history : ends_in R execute_history.
Proof. unfold execute_history. ends; try (intros; apply ends_in_history_lines). Qed.

Lemma ends_in_ps_rows (E : env) (jobs : list Z) (i : nat) : ends_in R (ps_rows E i jobs).
Proof.
  revert i. induction jobs as [|j jobs IH]; intros i; cbn [ps_rows]; ends; try (intros; apply IH).
Qed.

Lemma ends_in_execute_ps (E : env) : ends_in R (execute_ps E).
Proof. unfold execute_ps. ends; try (intros; apply ends_in_ps_rows). Qed.

Lemma ends_in_clear_redirections : ends_in R clear_redirections.
Proof. apply ends_in_modify. intros s. apply (R_redirection None None None). Qed.

Lemma set_redirection_fields (p : process) :
  set_append_file (append_file p) (set_output_file (output_file p) (set_input_file (input_file p) p))
  = p.
Proof. now destruct p. Qed.

Lemma ends_in_set_output_file (f : option string) :
  ends_in R (modify (set_process (set_output_file f))).
Proof.
  apply ends_in_modify. intros s.
  pose proof (R_redirection f (input_file (current_process s))
                (append_file (current_process s)) s) as H.
  destruct s as [[] w]. exact H.
Qed.

Lemma ends_in_set_append_file (f : option string) :
  ends_in R (modify (set_process (set_append_file f))).
Proof.
  apply ends_in_modify. intros s.
  pose proof (R_redirection (output_file (current_process s))
                (input_file (current_process s)) f s) as H.
  destruct s as [[] w]. exact H.
Qed.

Lemma ends_in_set_input_file (f : option string) :
  ends_in R (modify (set_process (set_input_file f))).
Proof.
  apply ends_in_modify. intros s.
  pose proof (R_redirection (output_file (current_process s)) f
                (append_file (current_process s)) s) as H.
  destruct s as [[] w]. exact H.
Qed.

Lemma ends_in_execute_external_command (E : env) (command : string) :
  ends_in R (execute_external_command E command).
Proof.
  unfold execute_external_command.
  destruct (last_char command) as [c|]; [|apply ends_in_fault].
  apply ends_in_bind; [apply ends_in_get | intros s].
  apply ends_in_bind; [apply ends_in_modify; intros; apply R_world | intros _].
  destruct (fork_result E (forks (os s))) as [child|]; [|ends].
  destruct (Ascii.eqb c "&"%char).
  - apply ends_in_bind; [apply ends_in_modify; intros; apply R_world | intros _].
    apply ends_in_bind; [apply ends_in_say | intros _].
    unfold add_background_job.
    intros s0. unfold bind, modify. cbn beta iota.
    eapply R_trans; [apply (R_launch child (drop_last command) s0)|].
    eapply R_trans; [|apply R_refl].
    apply (ends_in_clear_redirections
             (set_process (fun p =>
                set_background_jobs_commands (background_jobs_commands p ++ [drop_last command])
                  (set_background_jobs (background_jobs p ++ [child]) p)) s0)).
  - apply ends_in_bind; [apply ends_in_get | intros s1].
    destruct (child_process E (current_process s1) child command (os s1)) as [w status].
    apply ends_in_bind; [apply ends_in_modify; intros; apply R_world | intros _].
    destruct status as [code|]; [|ends].
    destruct (code =? 0); [|apply ends_in_ret].
    apply ends_in_bind; [apply ends_in_clear_redirections | intros; apply ends_in_ret].
Qed.

Lemma ends_in_is_builtin_command (command : string) : ends_in R (is_builtin_command command).
Proof. unfold is_builtin_command. ends. Qed.

Lemma ends_in_push_command (c : option string) (a : assembly) : ends_in R (push_command c a).
Proof. unfold push_command. ends. Qed.

Lemma ends_in_assemble (tokens : list string) (a : assembly) : ends_in R (assemble tokens a).
Proof.
  revert a. induction tokens as [|token rest IH]; intros a; [apply ends_in_ret|].
  cbn [assemble].
  destruct (String.eqb token "&&" || String.eqb token "||").
  { destruct (current_command a); apply IH. }
  destruct (last_is ";"%char token).
  { destruct (current_command a); apply IH. }
  destruct (String.eqb token ">").
  { destruct rest; [apply ends_in_fault|].
    apply ends_in_bind; [apply ends_in_set_output_file | intros; apply ends_in_push_command]. }
  destruct (String.eqb token ">>").
  { destruct rest; [apply ends_in_fault|].
    apply ends_in_bind; [apply ends_in_set_append_file | intros; apply ends_in_push_command]. }
  destruct (String.eqb token "<").
  { destruct rest; [apply ends_in_fault|].
    apply ends_in_bind; [apply ends_in_set_input_file | intros; apply ends_in_push_command]. }
  destruct (String.eqb token "&").
  { destruct (current_command a); [apply IH | apply ends_in_fault]. }
  destruct rest; [apply ends_in_ret | apply IH].
Qed.

Lemma length_replace_entry (h : list string) (n : nat) (line text : string) :
  nth_error h n = Some text ->
  List.length (firstn n h ++ line :: skipn (S n) h) = List.length h.
Proof.
  revert n. induction h as [|x h IH]; intros n H; [destruct n; discriminate|].
  destruct n as [|n]; [reflexivity|].
  cbn [firstn skipn app List.length]. f_equal. now apply IH.
Qed.

Lemma ends_in_save_command (E : env) (command : cmdref) : ends_in R (save_command E command).
Proof.
  unfold save_command. intros s. unfold bind at 1.
  destruct command as [text | n].
  - cbn [deref]. unfold ret at 1.
    apply (ends_in_bind
             (modify (set_process (fun p =>
                set_previous_commands (previous_commands p ++ [trim_space text]) p)))).
    + apply ends_in_modify. intros s0. apply (R_history _ s0).
      rewrite length_app. lia.
    + ends; try (intros; apply ends_in_modify; intros; apply R_world).
  - cbn [deref]. unfold bind at 1, get, vector_get.
    destruct (nth_error (previous_commands (current_process s)) n) as [text|] eqn:Hn;
      [|apply R_refl].
    unfold ret at 1. unfold bind at 1, modify at 1.
    assert (Hstep : R s (set_process (fun p =>
                       set_previous_commands
                         ((firstn n (previous_commands p)
                           ++ trim_space text :: skipn (S n) (previous_commands p))
                          ++ [trim_space text]) p) s)).
    { apply (R_history _ s). rewrite length_app, (length_replace_entry _ _ _ _ Hn). lia. }
    set (s1 := set_process _ s) in *.
    unfold bind, get, modify, ret, fault.
    destruct (history_file (current_process s1)); [|exact Hstep].
    destruct (can_open E s0); [|exact Hstep].
    cbv zeta. eapply R_trans; [exact Hstep | apply R_world].
Qed.

Section WithCallback.

Variable execute_again : cmdref -> M unit.
Hypothesis ends_in_again : forall c, ends_in R (execute_again c).

Lemma ends_in_execute_n (n : Z) : ends_in R (execute_n execute_again n).
Proof. unfold execute_n. ends; try (intros; apply ends_in_again). Qed.

Lemma ends_in_execute_prefix (prefix : string) : ends_in R (execute_prefix execute_again prefix).
Proof. unfold execute_prefix. ends; try (intros; apply ends_in_again). Qed.

Lemma ends_in_execute_builtin_command (E : env) (command : string) :
  ends_in R (execute_builtin_command E execute_again command).
Proof.
  unfold execute_builtin_command.
  destruct (strtok command) as [|token rest]; [apply ends_in_fault|].
  destruct (String.eqb token "cd").
  { destruct rest; [ends | apply ends_in_execute_cd]. }
  destruct (String.eqb token "!history"); [apply ends_in_execute_history|].
  destruct (first_is "#"%char token); [apply ends_in_execute_n|].
  destruct (first_is "!"%char token); [apply ends_in_execute_prefix|].
  destruct (String.eqb token "exit"); [apply ends_in_exit_shell|].
  destruct (String.eqb token "kill").
  { destruct rest; ends; try (intros; apply ends_in_kill_process). }
  destruct (String.eqb token "stop").
  { destruct rest; ends; try (intros; apply ends_in_stop_process). }
  destruct (String.eqb token "cont").
  { destruct rest; ends; try (intros; apply ends_in_continue_process). }
  destruct (String.eqb token "ps"); [apply ends_in_execute_ps | ends].
Qed.

Lemma ends_in_dispatch (E : env) (command : string) :
  ends_in R (dispatch E execute_again command).
Proof.
  unfold dispatch. apply ends_in_bind; [apply ends_in_is_builtin_command|].
  intros []; [apply ends_in_execute_builtin_command | apply ends_in_execute_external_command].
Qed.

End WithCallback.

Lemma ends_in_deref (command : cmdref) : ends_in R (deref command).
Proof. destruct command; cbn [deref]; ends. Qed.

(** The relation holds between the start and the end of
    [execute_command], whatever the line and the depth of re-entry. *)
Lemma ends_in_execute_command (E : env) (fuel : nat) (command : cmdref) :
  ends_in R (execute_command E fuel command).
Proof.
  revert command. induction fuel as [|fuel IH]; intros command.
  - intros s. exact I.
  - cbn [execute_command].
    apply ends_in_bind; [apply ends_in_deref | intros text].
    apply ends_in_bind; [apply ends_in_assemble | intros a].
    pose proof (ends_in_dispatch (execute_command E fuel) IH E) as Hrun.
    destruct (logical_operator a) as [op|].
    + apply ends_in_bind; [|intros; apply ends_in_save_command].
      destruct (String.eqb op "&&").
      { ends; try (intros; apply Hrun). }
      destruct (String.eqb op "||").
      { ends; try (intros; apply Hrun). }
      destruct (String.eqb op ";"); ends; try (intros; apply Hrun).
    + ends; try (intros; apply Hrun); try (intros; apply ends_in_save_command).
Qed.

End Respected.

(** ** What a line can do to the shell's own record *)

Lemma grows_refl (s : state) : grows s s.
Proof.
  repeat split; try lia. exists [], []. now rewrite !app_nil_r.
Qed.

Lemma grows_trans (s1 s2 s3 : state) : grows s1 s2 -> grows s2 s3 -> grows s1 s3.
Proof.
  intros (Hp & Hf & Hh & js & ts & Hj & Hc & Hl) (Hp' & Hf' & Hh' & js' & ts' & Hj' & Hc' & Hl').
  repeat split; try congruence; try lia.
  exists (js ++ js')%list, (ts ++ ts')%list.
  rewrite Hj', Hj, Hc', Hc, <- !app_assoc, !length_app. repeat split. lia.
Qed.

Lemma execute_command_grows (E : env) (fuel : nat) (command : cmdref) :
  ends_in grows (execute_command E fuel command).
Proof.
  apply ends_in_execute_command.
  - apply grows_refl.
  - apply grows_trans.
  - intros f s. unfold grows, set_world. cbn [current_process].
    repeat split; try lia. exists [], []. now rewrite !app_nil_r.
  - intros o i a s. destruct s as [[] w]. unfold grows. cbn.
    repeat split; try lia. exists [], []. now rewrite !app_nil_r.
  - intros child text s. destruct s as [[] w]. unfold grows. cbn.
    repeat split; try lia. exists [child], [text]. repeat split.
  - intros h s Hlen. destruct s as [[] w]. unfold grows. cbn in *.
    repeat split; try exact Hlen. exists [], []. now rewrite !app_nil_r.
Qed.

(** X17: whatever the line, and however its run ends, [execute_command]
    never takes a job out of the table and never changes one: the pids
    and the command texts it had are still there, and what was added
    came in pairs at the end.  Only the loop at the end of a turn
    removes jobs. *)
Theorem execute_command_appends_jobs (E : env) (fuel : nat) (command : cmdref) (s : state) :
  match execute_command E fuel command s with
  | Ret _ s' | Exited _ s' | Killed s' | Fault s' =>
      exists (pids : list Z) (texts : list string),
        background_jobs (current_process s') = (background_jobs (current_process s) ++ pids)%list
        /\ background_jobs_commands (current_process s')
           = (background_jobs_commands (current_process s) ++ texts)%list
        /\ List.length pids = List.length texts
  | OutOfFuel => True
  end.
Proof.
  pose proof (execute_command_grows E fuel command s) as H.
  destruct (execute_command E fuel command s); try exact I; apply H.
Qed.

(** X18: the history never gets shorter, and the shell's pid and the
    path of the history file never change, in any run of
    [execute_command]: a position in the history that [#<n>] or
    [!<prefix>] re-enters stays a position. *)
Theorem execute_command_keeps_history (E : env) (fuel : nat) (command : cmdref) (s : state) :
  match execute_command E fuel command s with
  | Ret _ s' | Exited _ s' | Killed s' | Fault s' =>
      (List.length (previous_commands (current_process s))
       <= List.length (previous_commands (current_process s')))%nat
      /\ pid (current_process s') = pid (current_process s)
      /\ history_file (current_process s') = history_file (current_process s)
  | OutOfFuel => True
  end.
Proof.
  pose proof (execute_command_grows E fuel command s) as H.
  destruct (execute_command E fuel command s); try exact I;
    destruct H as (Hp & Hf & Hh & _); auto.
Qed.

(** X19: when every pid of the job table has a command text at its
    position, it is so again after any line: the condition under which
    [ps] can print its rows holds in every state the shell reaches
    from its start by running lines. *)
Theorem execute_command_keeps_tracked (E : env) (fuel : nat) (command : cmdref) (s : state) :
  tracked s ->
  match execute_command E fuel command s with
  | Ret _ s' | Exited _ s' | Killed s' | Fault s' => tracked s'
  | OutOfFuel => True
  end.
Proof.
  intros Ht. pose proof (execute_command_grows E fuel command s) as H.
  destruct (execute_command E fuel command s); try exact I;
    destruct H as (_ & _ & _ & js & ts & Hj & Hc & Hl);
    unfold tracked in *; rewrite Hj, Hc, !length_app; lia.
Qed.

Lemma execute_command_keeps_tracked_witness :
  match execute_command Demo.E 3 (Line ("sleep 5 &" ++ Demo.nl)) Demo.s0 with
  | Ret _ s' | Exited _ s' | Killed s' | Fault s' => tracked s'
  | OutOfFuel => True
  end.
Proof.
  apply (execute_command_keeps_tracked Demo.E 3 (Line ("sleep 5 &" ++ Demo.nl)) Demo.s0).
  unfold tracked. simpl. lia.
Defined.

Example start_is_tracked (shell_pid : Z) (w : world) :
  tracked (mk_state (init_process shell_pid) w).
Proof. unfold tracked. simpl. lia. Qed.

(** ** The loop at the end of a turn *)

Lemma proc_state_forget_other (j k : Z) (ps : list (Z * run_state)) :
  k <> j -> proc_state k (forget_proc j ps) = proc_state k ps.
Proof.
  intros Hne. induction ps as [|[p r] ps IH]; [reflexivity|].
  cbn [forget_proc proc_state].
  destruct (Z.eqb_spec p j) as [->|Hpj].
  - destruct (Z.eqb_spec j k); [congruence | reflexivity].
  - cbn [proc_state]. destruct (p =? k); [reflexivity | exact IH].
Qed.

Lemma proc_state_absent (j : Z) (ps : list (Z * run_state)) :
  proc_state j ps = None <-> ~ In j (map fst ps).
Proof.
  induction ps as [|[p r] ps IH]; [simpl; tauto|].
  cbn [proc_state map fst In]. destruct (Z.eqb_spec p j) as [->|Hne].
  - split; [discriminate | intros H; exfalso; apply H; now left].
  - rewrite IH. tauto.
Qed.

Lemma proc_state_forget_same (j : Z) (ps : list (Z * run_state)) :
  NoDup (map fst ps) -> proc_state j (forget_proc j ps) = None.
Proof.
  induction ps as [|[p r] ps IH]; [reflexivity|].
  cbn [map fst forget_proc]. intros Hnd. inversion Hnd as [|? ? Hp Hnd']; subst.
  destruct (Z.eqb_spec p j) as [->|Hne].
  - now apply proc_state_absent.
  - cbn [proc_state]. destruct (Z.eqb_spec p j); [congruence | now apply IH].
Qed.

Lemma forget_proc_absent (j : Z) (ps : list (Z * run_state)) :
  proc_state j ps = None -> forget_proc j ps = ps.
Proof.
  induction ps as [|[p r] ps IH]; [reflexivity|].
  cbn [proc_state forget_proc]. destruct (p =? j); [discriminate|].
  intros H. now rewrite IH.
Qed.

Lemma without_middle (j : Z) (before after : list Z) :
  NoDup (before ++ j :: after) -> without j (before ++ j :: after) = (before ++ after)%list.
Proof.
  intros Hnd. apply NoDup_remove_2 in Hnd.
  unfold without. rewrite filter_app. cbn [filter]. rewrite Z.eqb_refl. cbn [negb].
  fold (without j before). fold (without j after).
  rewrite !without_absent; [reflexivity | |];
    intros H; apply Hnd; apply in_or_app; tauto.
Qed.

Lemma remove_background_job_gone (E : env) (j : Z) (s : state) :
  NoDup (background_jobs (current_process s)) ->
  job_pid s j ->
  proc_state j (procs (os s)) = None ->
  remove_background_job E j s
  = Ret tt (set_world (add_log (print_no_process_found j))
              (set_process (fun p => set_background_jobs (without j (background_jobs p)) p) s)).
Proof.
  intros Hnd [Hpos Hself] Hgone.
  pose proof (remove_scan_distinct j _ [] _ Hnd (le_n _)) as Hscan. simpl in Hscan.
  unfold remove_background_job, kill_process.
  unfold bind at 1, modify at 1. unfold bind at 1.
  rewrite sys_kill_other by assumption.
  unfold set_process. cbv beta. cbn [os current_process]. rewrite Hscan.
  rewrite signal_proc_missing by now apply proc_state_absent.
  reflexivity.
Qed.

Lemma waitpid_alive (child : Z) (s : state) :
  alive (procs (os s)) child -> sys_waitpid_nohang child s = Ret 0 s.
Proof.
  unfold sys_waitpid_nohang, bind, get. intros [H | H]; now rewrite H.
Qed.

Lemma reap_scan_alive_step (E : env) (n i : nat) (job : Z) (s : state) :
  nth_error (background_jobs (current_process s)) i = Some job ->
  alive (procs (os s)) job ->
  reap_scan E (S n) i s = reap_scan E n (S i) s.
Proof.
  intros Hnth Halive. cbn [reap_scan]. unfold bind at 1, get. rewrite Hnth.
  unfold bind at 1. rewrite (waitpid_alive job s Halive). reflexivity.
Qed.

Lemma reap_scan_rest_alive (E : env) (n i : nat) (s : state) :
  (forall (k : nat) (job : Z),
      (i <= k)%nat -> nth_error (background_jobs (current_process s)) k = Some job ->
      alive (procs (os s)) job) ->
  reap_scan E n i s = Ret tt s.
Proof.
  revert i. induction n as [|n IH]; intros i H; [reflexivity|].
  destruct (nth_error (background_jobs (current_process s)) i) as [job|] eqn:Hnth.
  - rewrite (reap_scan_alive_step E n i job s Hnth (H i job (le_n _) Hnth)).
    apply IH. intros k job' Hk. apply H. lia.
  - cbn [reap_scan]. unfold bind, get. now rewrite Hnth.
Qed.

Lemma reap_scan_skip_alive (E : env) (k n i : nat) (s : state) :
  (forall (m : nat),
      (i <= m < i + k)%nat ->
      exists job, nth_error (background_jobs (current_process s)) m = Some job
                  /\ alive (procs (os s)) job) ->
  reap_scan E (k + n) i s = reap_scan E n (i + k) s.
Proof.
  revert i. induction k as [|k IH]; intros i H.
  - now rewrite Nat.add_0_r.
  - destruct (H i ltac:(lia)) as (job & Hnth & Halive).
    cbn [Nat.add]. rewrite (reap_scan_alive_step E (k + n) i job s Hnth Halive).
    rewrite IH; [f_equal; lia|]. intros m Hm. apply H. lia.
Qed.

(** One job at the end of its life, living jobs in front of it and
    from the second place behind it on: the pass takes out that job
    and nothing else, whatever stands right behind it. *)
Lemma reap_removes_one (E : env) (j : Z) (before after : list Z) (s : state) :
  background_jobs (current_process s) = (before ++ j :: after)%list ->
  NoDup (background_jobs (current_process s)) ->
  NoDup (map fst (procs (os s))) ->
  job_pid s j ->
  finished (procs (os s)) j ->
  Forall (alive (procs (os s))) before ->
  Forall (alive (procs (os s))) (tl after) ->
  reap_background_jobs E s = Ret tt (reaped j (before ++ after) s).
Proof.
  intros Hjobs Hnd Hprocs Hjob Hfin Hbefore Hafter.
  unfold reap_background_jobs. unfold bind at 1, get. rewrite Hjobs.
  replace (List.length (before ++ j :: after))
    with (List.length before + S (List.length after))%nat
    by (rewrite length_app; reflexivity).
  rewrite (reap_scan_skip_alive E (List.length before) (S (List.length after)) 0 s).
  2:{ intros m Hm. rewrite Hjobs.
      destruct (nth_error before m) as [job|] eqn:Hm'.
      - exists job. split.
        + rewrite nth_error_app1 by lia. exact Hm'.
        + rewrite Forall_forall in Hbefore. apply Hbefore. eapply nth_error_In. exact Hm'.
      - apply nth_error_None in Hm'. lia. }
  cbn [Nat.add reap_scan]. unfold bind at 1, get. rewrite Hjobs, nth_error_middle.
  set (s1 := set_world (fun w => set_procs (forget_proc j (procs w)) w) s).
  assert (Hwait : exists r, r <> 0 /\ sys_waitpid_nohang j s = Ret r s1).
  { unfold sys_waitpid_nohang, bind, get. destruct Hfin as [Hz | Hn].
    - rewrite Hz. exists j. split; [destruct Hjob; lia | reflexivity].
    - rewrite Hn. exists (-1). split; [lia|].
      unfold s1, ret, set_world. rewrite (forget_proc_absent j _ Hn).
      now destruct s as [p [l f c pr fk]]. }
  destruct Hwait as (r & Hr & Hwait).
  unfold bind at 1. rewrite Hwait.
  apply Z.eqb_neq in Hr. rewrite Hr. cbn [negb].
  assert (Hgone : proc_state j (procs (os s1)) = None).
  { unfold s1, set_world. cbn [os procs set_procs]. now apply proc_state_forget_same. }
  unfold bind at 1.
  rewrite (remove_background_job_gone E j s1 Hnd Hjob Hgone).
  unfold s1 at 1. unfold set_process, set_world. cbn [current_process os].
  rewrite Hjobs, (without_middle j before after) by (rewrite <- Hjobs; exact Hnd).
  match goal with |- reap_scan E _ _ ?s2 = _ => set (s2' := s2) end.
  assert (Hs2 : s2' = reaped j (before ++ after) s).
  { unfold s2', reaped, add_log, set_procs. cbn [log files cwd procs forks]. reflexivity. }
  rewrite Hs2. apply reap_scan_rest_alive.
  intros k job Hk Hnth. unfold reaped in Hnth |- *.
  cbn [current_process background_jobs set_background_jobs os procs] in Hnth |- *.
  destruct after as [|b after'].
  { rewrite app_nil_r in Hnth.
    assert (nth_error before k = None) by (apply nth_error_None; lia). congruence. }
  rewrite nth_error_app2 in Hnth by lia.
  destruct (k - List.length before)%nat as [|k'] eqn:Hkk; [lia|].
  cbn [nth_error] in Hnth. apply nth_error_In in Hnth.
  cbn [tl] in Hafter. rewrite Forall_forall in Hafter.
  assert (Hne : job <> j).
  { intros ->. rewrite Hjobs in Hnd. apply NoDup_remove_2 in Hnd.
    apply Hnd. apply in_or_app. right. now right. }
  unfold alive. rewrite !proc_state_forget_other by exact Hne.
  now apply Hafter.
Qed.

(** X20: while every job of the table is alive, the loop at the end of
    a turn changes nothing: no job is removed, no signal is sent,
    nothing is printed. *)
Theorem reap_keeps_living_jobs (E : env) (s : state) :
  Forall (alive (procs (os s))) (background_jobs (current_process s)) ->
  reap_background_jobs E s = Ret tt s.
Proof.
  intros H. unfold reap_background_jobs, bind, get.
  apply reap_scan_rest_alive. intros k job _ Hnth.
  rewrite Forall_forall in H. apply H. eapply nth_error_In. exact Hnth.
Qed.

Lemma reap_keeps_living_jobs_witness :
  reap_background_jobs Demo.E (launched 100 "sleep 5 " Demo.s0)
  = Ret tt (launched 100 "sleep 5 " Demo.s0).
Proof.
  apply (reap_keeps_living_jobs Demo.E (launched 100 "sleep 5 " Demo.s0)).
  repeat constructor.
Defined.

(** X21: when one job of the table has ended and the others are alive,
    the loop takes exactly that job's pid out (the command texts stay
    as they are), the child is gone from the processes, and the
    [SIGKILL] that [remove_background_job] sends after it is reported
    as finding no process; the other jobs keep their order. *)
Theorem reap_removes_finished_job (E : env) (j : Z) (before after : list Z) (s : state) :
  background_jobs (current_process s) = (before ++ j :: after)%list ->
  NoDup (background_jobs (current_process s)) ->
  NoDup (map fst (procs (os s))) ->
  job_pid s j ->
  finished (procs (os s)) j ->
  Forall (alive (procs (os s))) before ->
  Forall (alive (procs (os s))) after ->
  reap_background_jobs E s = Ret tt (reaped j (before ++ after) s).
Proof.
  intros Hjobs Hnd Hprocs Hjob Hfin Hbefore Hafter.
  apply reap_removes_one; try assumption.
  destruct after; [constructor | now inversion Hafter].
Qed.

Lemma reap_removes_finished_job_witness :
  reap_background_jobs Demo.E Demo.s_jobs = Ret tt (reaped 101 [100] Demo.s_jobs).
Proof.
  apply (reap_removes_finished_job Demo.E 101 [100] [] Demo.s_jobs).
  - reflexivity.
  - repeat constructor; simpl; intros H; repeat destruct H as [H|H]; try discriminate H; exact H.
  - repeat constructor. simpl. tauto.
  - split; [reflexivity | discriminate].
  - right. reflexivity.
  - repeat constructor.
  - constructor.
Defined.

(** X22: two jobs that have ended, side by side in the table: one pass
    of the loop takes out the first only.  The removal moves the second
    under the index that is then incremented, so it is not looked at:
    it stays in the table, unreaped, until the next turn. *)
Theorem reap_skips_next_job (E : env) (j next : Z) (before after : list Z) (s : state) :
  background_jobs (current_process s) = (before ++ j :: next :: after)%list ->
  NoDup (background_jobs (current_process s)) ->
  NoDup (map fst (procs (os s))) ->
  job_pid s j ->
  finished (procs (os s)) j ->
  proc_state next (procs (os s)) = Some Zombie ->
  Forall (alive (procs (os s))) before ->
  Forall (alive (procs (os s))) after ->
  exists s' : state,
    reap_background_jobs E s = Ret tt s'
    /\ background_jobs (current_process s') = (before ++ next :: after)%list
    /\ proc_state next (procs (os s')) = Some Zombie.
Proof.
  intros Hjobs Hnd Hprocs Hjob Hfin Hnext Hbefore Hafter.
  exists (reaped j (before ++ next :: after) s). split; [|split].
  - now apply reap_removes_one.
  - reflexivity.
  - unfold reaped. cbn [os procs]. rewrite proc_state_forget_other; [exact Hnext|].
    intros ->. rewrite Hjobs in Hnd. apply NoDup_remove_2 in Hnd.
    apply Hnd. apply in_or_app. right. now left.
Qed.

Lemma reap_skips_next_job_witness :
  exists s' : state,
    reap_background_jobs Demo.E Demo.s_two_ended = Ret tt s'
    /\ background_jobs (current_process s') = [101]
    /\ proc_state 101 (procs (os s')) = Some Zombie.
Proof.
  apply (reap_skips_next_job Demo.E 100 101 [] [] Demo.s_two_ended).
  - reflexivity.
  - repeat constructor; simpl; intros H; repeat destruct H as [H|H]; try discriminate H; exact H.
  - repeat constructor; simpl; intros H; repeat destruct H as [H|H]; try discriminate H; exact H.
  - split; [reflexivity | discriminate].
  - left. reflexivity.
  - reflexivity.
  - constructor.
  - constructor.
Defined.

(** ** The history file *)

Lemma getlines_line (l rest : string) :
  no_newline l = true -> getlines (l ++ String LF rest) = (l ++ String LF EmptyString)%string :: getlines rest.
Proof.
  induction l as [|c l IH]; intros H.
  - reflexivity.
  - cbn [no_newline] in H. apply andb_true_iff in H. destruct H as [Hc Hl].
    apply negb_true_iff in Hc.
    cbn [append getlines]. rewrite Hc. now rewrite (IH Hl).
Qed.

Lemma getlines_lines_text (ls : list string) :
  Forall (fun l => no_newline l = true) ls ->
  getlines (lines_text ls) = map (fun l => (l ++ String LF EmptyString)%string) ls.
Proof.
  induction 1 as [|l ls Hl Hls IH]; [reflexivity|].
  cbn [lines_text fold_right map]. fold (lines_text ls).
  now rewrite getlines_line, IH.
Qed.

(** X23: [handle_history_file] on a file of newline-ended lines puts
    one entry per line behind the entries already there, in the order
    of the file, and each entry keeps its newline; the path becomes
    the history file of the session. *)
Theorem handle_history_file_loads (E : env) (filename : string) (ls : list string)
        (s : state) :
  fs_read (files (os s)) filename = Some (lines_text ls) ->
  Forall (fun l => no_newline l = true) ls ->
  handle_history_file E filename s
  = Ret tt (set_process (fun p =>
              set_history_file (Some filename)
                (set_previous_commands
                   (previous_commands p
                    ++ map (fun l => (l ++ String LF EmptyString)%string) ls) p)) s).
Proof.
  intros Hread Hls. unfold handle_history_file. unfold bind at 1, get.
  rewrite Hread, (getlines_lines_text ls Hls). reflexivity.
Qed.

Lemma handle_history_file_loads_witness :
  handle_history_file Demo.E "hist" Demo.s_saved
  = Ret tt (set_process (fun p =>
              set_history_file (Some "hist")
                (set_previous_commands
                   (previous_commands p
                    ++ map (fun l => (l ++ String LF EmptyString)%string) ["ls -l"; "pwd"]) p))
              Demo.s_saved).
Proof.
  apply (handle_history_file_loads Demo.E "hist" ["ls -l"; "pwd"] Demo.s_saved).
  - reflexivity.
  - repeat constructor.
Defined.

Lemma lines_text_snoc (ls : list string) (l : string) :
  lines_text (ls ++ [l]) = (lines_text ls ++ l ++ String LF EmptyString)%string.
Proof.
  induction ls as [|x ls IH]; [reflexivity|].
  cbn [app lines_text fold_right]. fold (lines_text (ls ++ [l])). fold (lines_text ls).
  rewrite IH. rewrite append_assoc. reflexivity.
Qed.

(** X24: with a history file that holds newline-ended lines, and a
    fresh [malloc] block that happens to start with a zero byte,
    recording a line appends exactly the trimmed line and a newline to
    the file and the trimmed line to the history: the file stays a
    sequence of newline-ended lines that [handle_history_file] reads
    back entry by entry. *)
Theorem save_command_appends_line (E : env) (path text : string) (ls : list string)
        (s : state) :
  history_file (current_process s) = Some path ->
  can_open E path = true ->
  malloc_block E = EmptyString ->
  fs_read (files (os s)) path = Some (lines_text ls) ->
  exists s' : state,
    save_command E (Line text) s = Ret tt s'
    /\ fs_read (files (os s')) path = Some (lines_text (ls ++ [trim_space text]))
    /\ previous_commands (current_process s')
       = (previous_commands (current_process s) ++ [trim_space text])%list
    /\ history_file (current_process s') = Some path.
Proof.
  intros Hfile Hopen Hblock Hread. unfold save_command.
  unfold bind at 1. cbn [deref]. unfold ret at 1.
  unfold bind at 1, modify at 1. unfold bind at 1, get.
  unfold set_process at 1 2. cbn [current_process os].
  destruct s as [p w]. cbn [current_process os] in *.
  destruct p as [pi h hf bj bjc o i a]. cbn in Hfile. subst hf.
  cbn [history_file set_previous_commands]. rewrite Hopen, Hread, Hblock.
  eexists. split; [reflexivity|].
  cbn. rewrite fs_read_write, lines_text_snoc. repeat split.
Qed.

Lemma save_command_appends_line_witness :
  exists s' : state,
    save_command Demo.E (Line ("echo hi" ++ Demo.nl)) Demo.s_saved = Ret tt s'
    /\ fs_read (files (os s')) "hist"
       = Some (lines_text (["ls -l"; "pwd"] ++ [trim_space ("echo hi" ++ Demo.nl)]))
    /\ previous_commands (current_process s')
       = (previous_commands (current_process Demo.s_saved)
          ++ [trim_space ("echo hi" ++ Demo.nl)])%list
    /\ history_file (current_process s') = Some "hist".
Proof.
  apply (save_command_appends_line Demo.E "hist" ("echo hi" ++ Demo.nl) ["ls -l"; "pwd"]
           Demo.s_saved); reflexivity.
Defined.

(** A file that is missing is created empty; when it cannot be created
    the function reads through the null pointer. *)
Example handle_history_file_missing :
  handle_history_file Demo.E "hist" Demo.s0
  = Ret tt (mk_state (mk_process 1 [] (Some "hist") [] [] None None None)
              (mk_world [] [("hist", "")] "/" [] 0))
  /\ handle_history_file Demo.E "" Demo.s0 = Fault Demo.s0.
Proof. split; reflexivity. Qed.

(** An entry loaded from the file has its newline until it is run
    again: [execute_command] trims the entry where it lies. *)
Example loaded_entry_is_trimmed_in_place :
  exists s1 s2 : state,
    handle_history_file Demo.E "hist" Demo.s_saved = Ret tt s1
    /\ previous_commands (current_process s1)
       = ["ls -l" ++ Demo.nl; "pwd" ++ Demo.nl]%string
    /\ execute_command Demo.E 3 (Line "#1") s1 = Ret tt s2
    /\ previous_commands (current_process s2) = ["ls -l" ++ Demo.nl; "pwd"; "pwd"]%string.
Proof.
  eexists. eexists. split; [vm_compute; reflexivity|]. split; [reflexivity|].
  split; [vm_compute; reflexivity | reflexivity].
Qed.

(** ** The rows of [ps] *)

Lemma ps_rows_table (E : env) (jobs : list Z) (i : nat) (s : state) :
  Forall (fun j => get_process_info E j <> None) jobs ->
  (i + List.length jobs <= List.length (background_jobs_commands (current_process s)))%nat ->
  exists infos : list process_info,
    ps_rows E i jobs s = Ret tt (set_world (add_logs (map print_process_info infos)) s)
    /\ map info_pid infos = jobs
    /\ map info_command infos
       = map Some (firstn (List.length jobs)
                     (skipn i (background_jobs_commands (current_process s)))).
Proof.
  revert i s. induction jobs as [|j jobs IH]; intros i s Hall Hlen.
  - exists []. simpl. split; [|split; reflexivity]. unfold ret. now rewrite add_logs_nil.
  - inversion Hall as [|? ? Hj Hall']; subst.
    destruct (get_process_info E j) as [info|] eqn:Hinfo; [|congruence].
    simpl in Hlen.
    destruct (nth_error (background_jobs_commands (current_process s)) i) as [c|] eqn:Hc;
      [| apply nth_error_None in Hc; lia].
    destruct (IH (S i) (set_world (add_log (print_process_info (with_command c info))) s) Hall')
      as (infos & Hrows & Hpids & Hcmds).
    { simpl. lia. }
    exists (with_command c info :: infos). split; [|split].
    + simpl. rewrite Hinfo. unfold or_fault, bind at 1, ret.
      unfold bind at 1, get. unfold bind at 1, vector_get. rewrite Hc. unfold ret.
      unfold bind at 1, say, modify.
      rewrite Hrows. now rewrite add_logs_cons.
    + simpl. now rewrite (get_process_info_pid E j info Hinfo), Hpids.
    + cbn [map info_command with_command List.length]. rewrite Hcmds.
      cbn [set_world current_process].
      destruct (nth_error_split _ _ Hc) as (l1 & l2 & Hsplit & Hl1).
      rewrite Hsplit.
      replace (skipn i (l1 ++ c :: l2)) with (c :: l2)
        by (rewrite skipn_app, <- Hl1, skipn_all, Nat.sub_diag; reflexivity).
      replace (skipn (S i) (l1 ++ c :: l2)) with l2
        by (rewrite skipn_app, <- Hl1;
            replace (S (List.length l1) - List.length l1)%nat with 1%nat by lia;
            rewrite skipn_all2 by lia; reflexivity).
      reflexivity.
Qed.

(** X25: the command column of [ps] pairs the i-th pid of the table
    with the i-th command text ever stored, not with the text that
    pid was started with: the texts are never taken out, so after a
    job was removed the rows of the jobs behind it show the texts of
    earlier jobs.  The shell's own row shows [./shell]. *)
Theorem execute_ps_command_column (E : env) (s : state) :
  Forall (fun j => get_process_info E j <> None)
         (background_jobs (current_process s) ++ [pid (current_process s)]) ->
  tracked s ->
  exists infos : list process_info,
    execute_ps E s
    = Ret 0 (set_world (add_logs (print_process_info_header :: map print_process_info infos)) s)
    /\ map info_command infos
       = (map Some (firstn (List.length (background_jobs (current_process s)))
                       (background_jobs_commands (current_process s)))
          ++ [Some "./shell"])%list.
Proof.
  intros Hall Hlen.
  apply Forall_app in Hall. destruct Hall as [Hjobs Hshell].
  inversion Hshell as [|? ? Hself _]; subst.
  destruct (get_process_info E (pid (current_process s))) as [self|] eqn:Hinfo; [|congruence].
  destruct (ps_rows_table E (background_jobs (current_process s)) 0
              (set_world (add_log print_process_info_header) s) Hjobs)
    as (infos & Hrows & _ & Hcmds).
  { simpl. exact Hlen. }
  exists (infos ++ [with_command "./shell" self])%list. split.
  - unfold execute_ps. unfold bind at 1, say, modify.
    unfold bind at 1, get. unfold bind at 1.
    simpl current_process at 1. simpl in Hrows. rewrite Hrows.
    unfold bind at 1. simpl. rewrite Hinfo. simpl.
    unfold bind, say, modify, ret.
    rewrite map_app. simpl.
    f_equal. destruct s as [p [l f c pr fk]]. unfold set_world, add_logs, add_log. simpl.
    f_equal. f_equal. rewrite <- !app_assoc. reflexivity.
  - rewrite map_app, Hcmds. reflexivity.
Qed.

Lemma execute_ps_command_column_witness :
  exists infos : list process_info,
    execute_ps Demo.E (reaped 100 [101] Demo.s_two_ended)
    = Ret 0 (set_world (add_logs (print_process_info_header :: map print_process_info infos))
               (reaped 100 [101] Demo.s_two_ended))
    /\ map info_command infos = [Some "sleep 1 "; Some "./shell"].
Proof.
  apply (execute_ps_command_column Demo.E (reaped 100 [101] Demo.s_two_ended)).
  - repeat constructor; discriminate.
  - unfold tracked. simpl. lia.
Defined.

(** X26: [get_process_info] gets through exactly when the status file
    and the stat file of the pid can be opened and the stat line has
    at least 22 fields; otherwise it reads through a null pointer.
    No other content of the two files can make it fail. *)
Theorem get_process_info_defined (E : env) (target : Z) :
  get_process_info E target <> None
  <-> (exists lines, proc_status E target = Some lines)
      /\ (exists line, proc_stat E target = Some line
                       /\ (22 <= List.length (strtok line))%nat).
Proof.
  unfold get_process_info. split.
  - intros H. destruct (proc_status E target) as [lines|]; [|congruence].
    split; [now exists lines|].
    destruct (proc_stat E target) as [line|]; [|congruence].
    exists line. split; [reflexivity|].
    destruct (nth_error (strtok line) 21) as [t|] eqn:H21.
    + assert (21 < List.length (strtok line))%nat by (apply nth_error_Some; congruence). lia.
    + exfalso. apply H.
      destruct (nth_error (strtok line) 2), (nth_error (strtok line) 13); reflexivity.
  - intros [(lines & Hs) (line & Hl & Hlen)]. rewrite Hs, Hl.
    destruct (nth_error (strtok line) 2) eqn:H2;
      [| apply nth_error_None in H2; lia].
    destruct (nth_error (strtok line) 13) eqn:H13;
      [| apply nth_error_None in H13; lia].
    destruct (nth_error (strtok line) 21) eqn:H21;
      [| apply nth_error_None in H21; lia].
    discriminate.
Qed.

(** The size of a process that has ended is not in its status file:
    the field is left as [malloc] gave it. *)
Example zombie_has_no_size :
  let E' := mk_env (fork_result Demo.E) (image Demo.E) (chdir_to Demo.E) (can_open Demo.E)
              (kill_group Demo.E) (fun _ => Some ["Name: sleep"; "State: Z (zombie)"; "Threads: 1"])
              (proc_stat Demo.E) (clk_tck Demo.E)
              (boot_time Demo.E) (gmtime_string Demo.E) (localtime_string Demo.E)
              (malloc_block Demo.E) in
  option_map info_vsize (get_process_info E' 100) = Some None
  /\ option_map info_nthreads (get_process_info E' 100) = Some (Some 1).
Proof. split; reflexivity. Qed.

(** ** [#<n>] as it is typed *)

(** X27: typed with the decimal text of a position of the history,
    the built-in [#<n>] prints the entry at that position and runs it
    again from its place in the history. *)
Theorem hash_decimal_runs_entry (E : env) (rec : cmdref -> M unit) (n : Z)
        (entry : string) (s : state) :
  0 <= n <= INT_MAX ->
  nth_error (previous_commands (current_process s)) (Z.to_nat n) = Some entry ->
  execute_builtin_command E rec (String "#" (decimal n)) s
  = bind (rec (Hist (Z.to_nat n))) (fun _ => ret 0)
         (set_world (add_log (print_command entry)) s).
Proof.
  intros Hn Hnth. rewrite builtin_hash_decimal.
  - apply execute_n_valid; [lia | exact Hnth].
  - unfold INT_MIN, INT_MAX in *. lia.
Qed.

Lemma hash_decimal_runs_entry_witness :
  execute_builtin_command Demo.E (execute_command Demo.E 3) (String "#" (decimal 1)) Demo.s_hist
  = bind (execute_command Demo.E 3 (Hist (Z.to_nat 1))) (fun _ => ret 0)
         (set_world (add_log (print_command "echo b")) Demo.s_hist).
Proof.
  apply (hash_decimal_runs_entry Demo.E (execute_command Demo.E 3) 1 "echo b" Demo.s_hist).
  - unfold INT_MAX. lia.
  - reflexivity.
Defined.

(** ** Lines with an operator in the history *)

Lemma save_command_last (E : env) (text : string) (s s' : state) :
  save_command E (Line text) s = Ret tt s' ->
  previous_commands (current_process s')
  = (previous_commands (current_process s) ++ [trim_space text])%list.
Proof.
  unfold save_command. unfold bind at 1. cbn [deref]. unfold ret at 1.
  unfold bind at 1, modify at 1. unfold bind at 1, get.
  match goal with |- context [history_file (current_process ?s1)] => set (s1' := s1) end.
  destruct (history_file (current_process s1')).
  - destruct (can_open E s0); [|discriminate].
    unfold modify. intros [= <-]. unfold s1'. now destruct s as [[] w].
  - unfold ret. intros [= <-]. unfold s1'. now destruct s as [[] w].
Qed.

Lemma trim_space_pair_line (op : string) (cmd1 cmd2 : list string) (eol : string) :
  plain_command cmd2 = true -> line_end eol ->
  trim_space (pair_line op cmd1 cmd2 eol) = pair_line op cmd1 cmd2 EmptyString.
Proof.
  intros H Heol. destruct (plain_command_inv cmd2 H) as [Hne Hall].
  destruct (exists_last Hne) as (init & w & ->).
  apply Forall_app in Hall. destruct Hall as [_ Hw].
  inversion Hw as [|? ? Hp _]; subst.
  destruct (last_token_tests w eol Hp Heol) as (_ & _ & _ & _ & _ & _ & _ & Htrim).
  assert (Hjoin : exists q, forall e, (join (init ++ [w]) ++ e = q ++ w ++ e)%string).
  { destruct init as [|x init].
    - exists EmptyString. reflexivity.
    - exists (join (x :: init) ++ " ")%string. intros e.
      rewrite join_app by discriminate. cbn [join]. now rewrite !append_assoc. }
  destruct Hjoin as (q & Hq).
  unfold pair_line. destruct (String.eqb op ";").
  - rewrite !Hq.
    replace (join cmd1 ++ "; " ++ q ++ w ++ eol)%string
      with ((join cmd1 ++ "; " ++ q) ++ w ++ eol)%string by (now rewrite !append_assoc).
    rewrite Htrim. rewrite append_nil_r. now rewrite !append_assoc.
  - rewrite !Hq.
    replace (join cmd1 ++ " " ++ op ++ " " ++ q ++ w ++ eol)%string
      with ((join cmd1 ++ " " ++ op ++ " " ++ q) ++ w ++ eol)%string
      by (now rewrite !append_assoc).
    rewrite Htrim. rewrite append_nil_r. now rewrite !append_assoc.
Qed.

(** X28: a line [cmd1 OP cmd2] that returns is always recorded, as
    the whole line without its newline and as the last entry of the
    history, whatever the two commands are and whatever their status:
    also when they are [!history], [#<n>] or [!<prefix>], which alone
    on a line are never recorded. *)
Theorem operator_line_is_recorded (E : env) (fuel : nat) (op : string)
        (cmd1 cmd2 : list string) (eol : string) (s s' : state) :
  plain_command cmd1 = true -> plain_command cmd2 = true -> line_end eol ->
  In op ["&&"; "||"; ";"] ->
  execute_command E (S fuel) (Line (pair_line op cmd1 cmd2 eol)) s = Ret tt s' ->
  exists earlier : list string,
    previous_commands (current_process s')
    = (earlier ++ [pair_line op cmd1 cmd2 EmptyString])%list.
Proof.
  intros H1 H2 Heol Hop Hrun.
  rewrite (execute_command_pair E fuel op cmd1 cmd2 eol s H1 H2 Heol Hop) in Hrun.
  unfold bind at 1 in Hrun.
  destruct (run_pair (dispatch E (execute_command E fuel)) op (join cmd1) (join cmd2) s)
    as [[] s1| | | |]; try discriminate Hrun.
  exists (previous_commands (current_process s1)).
  rewrite (save_command_last E _ s1 s' Hrun).
  now rewrite trim_space_pair_line.
Qed.

Lemma operator_line_is_recorded_witness :
  exists earlier : list string,
    previous_commands
      (current_process
         (set_world (add_log print_invalid_index)
            (set_process (set_previous_commands ["#0 && ls"]) Demo.s0)))
    = (earlier ++ [pair_line "&&" ["#0"] ["ls"] EmptyString])%list.
Proof.
  apply (operator_line_is_recorded Demo.E 2 "&&" ["#0"] ["ls"] EmptyString Demo.s0).
  - reflexivity.
  - reflexivity.
  - left. reflexivity.
  - simpl. tauto.
  - reflexivity.
Defined.
